(** * CoralSwap SDK: pricing arithmetic of the example scripts

    The repository ships example scripts that talk to a remote pair contract
    and perform a small amount of bit-exact integer arithmetic off-chain:
    the constant-product output estimate and the price impact of
    [read-reserves], and the slippage minimum of [provide-liquidity].
    Those computations are embedded here over [Z] (JavaScript [bigint]),
    with [Z.quot] for the [/] of [bigint], which truncates toward zero. *)

From Stdlib Require Import Ascii String.
From Stdlib Require Import Decimal DecimalString DecimalFacts DecimalPos DecimalN.
From Stdlib Require Import ZArith QArith Bool List Lia.
Import ListNotations.

Local Open Scope Z_scope.

(** ** examples/read-reserves: swap output estimation *)

(** [const testAmount = 1000000n]. *)
Definition testAmount : Z := 1000000.

(** The arithmetic of the estimation block:
    [feeFactor = BigInt(10000 - dynamicFee)],
    [amountInWithFee = testAmount * feeFactor],
    [numerator = amountInWithFee * reserves.reserve1],
    [denominator = reserves.reserve0 * 10000n + amountInWithFee],
    [estimatedOut = numerator / denominator]. *)
Definition estimatedOut (amountIn reserve0 reserve1 dynamicFee : Z) : Z :=
  let feeFactor := 10000 - dynamicFee in
  let amountInWithFee := amountIn * feeFactor in
  let numerator := amountInWithFee * reserve1 in
  let denominator := reserve0 * 10000 + amountInWithFee in
  Z.quot numerator denominator.

(** The block is guarded by [reserves.reserve0 > 0n && reserves.reserve1 > 0n];
    nothing is estimated otherwise. *)
Definition estimateSwapOutput (amountIn reserve0 reserve1 dynamicFee : Z)
  : option Z :=
  if (0 <? reserve0) && (0 <? reserve1)
  then Some (estimatedOut amountIn reserve0 reserve1 dynamicFee)
  else None.

(** ** examples/read-reserves: calculatePriceImpact *)

(** The [bigint] local [impact] of [calculatePriceImpact], in basis points;
    it is [0] on the two early returns. *)
Definition impactBps (amountIn amountOut reserveIn reserveOut : Z) : Z :=
  if (reserveIn =? 0) || (reserveOut =? 0) then 0
  else
    let idealOut := Z.quot (amountIn * reserveOut) reserveIn in
    if idealOut =? 0 then 0
    else Z.quot ((idealOut - amountOut) * 10000) idealOut.

(** [calculatePriceImpact] itself returns the percentage
    [Number(impact) / 100]; the JavaScript number is modelled by the exact
    rational it approximates. *)
Definition calculatePriceImpact (amountIn amountOut reserveIn reserveOut : Z)
  : Q :=
  if (reserveIn =? 0) || (reserveOut =? 0) then 0%Q
  else
    let idealOut := Z.quot (amountIn * reserveOut) reserveIn in
    if idealOut =? 0 then 0%Q
    else
      let impact := Z.quot ((idealOut - amountOut) * 10000) idealOut in
      (inject_Z impact / 100)%Q.

(** ** examples/provide-liquidity: minimum amount under slippage *)

(** [const slippageBps = 100]. *)
Definition slippageBps : Z := 100.

(** [(quote.amountA * BigInt(10000 - slippageBps)) / 10000n], the same
    expression serving [amountAMin] and [amountBMin]. *)
Definition amountMin (amount slippage : Z) : Z :=
  Z.quot (amount * (10000 - slippage)) 10000.

(** ** examples/read-reserves: formatReserve *)

(** [bigint.toString()], also what a template literal does to a [bigint]:
    the decimal digits, after a [-] for a negative number. *)
Definition bigintToString (z : Z) : string :=
  NilZero.string_of_int (Z.to_int z).

Fixpoint zeros (n : nat) : string :=
  match n with
  | O => EmptyString
  | S k => String "0" (zeros k)
  end.

(** [s.padStart(targetLength, '0')]: zeros in front up to the target
    length, nothing when [s] is already that long. *)
Definition padStart (s : string) (targetLength : nat) : string :=
  (zeros (targetLength - String.length s) ++ s)%string.

(** [formatReserve(value)], with its 7 decimal places:
    [divisor = BigInt(10 ** decimals)], [integerPart = value / divisor],
    [fractionalPart = value % divisor], the fraction padded to 7 characters
    and the two joined by a dot. *)
Definition formatReserve (value : Z) : string :=
  let decimals := 7%nat in
  let divisor := 10 ^ Z.of_nat decimals in
  let integerPart := Z.quot value divisor in
  let fractionalPart := Z.rem value divisor in
  let fractionalStr := padStart (bigintToString fractionalPart) decimals in
  (bigintToString integerPart ++ "." ++ fractionalStr)%string.

(** ** examples/simple-swap and examples/provide-liquidity: error hints *)

(** [s.includes(searchString)]: whether [searchString] occurs somewhere in
    [s], compared character by character. *)
Fixpoint includes (s searchString : string) : bool :=
  String.prefix searchString s
  || match s with
     | EmptyString => false
     | String _ rest => includes rest searchString
     end.

(** [error.message?.includes(...)]: without a message the test is falsy. *)
Definition messageIncludes (message : option string) (searchString : string)
  : bool :=
  match message with
  | None => false
  | Some m => includes m searchString
  end.

Definition newline : string := String (ascii_of_nat 10) EmptyString.

(** The lines each branch of the [catch] block of simple-swap hands to
    [console.error]. *)
Definition pairNotFoundHint : list string :=
  [(newline ++ "  Hint: The token pair does not exist. You may need to:")%string;
   "    1. Create the liquidity pool first"%string;
   "    2. Check that the token addresses are correct"%string].

Definition insufficientLiquidityHint : list string :=
  [(newline ++ "  Hint: The liquidity pool has insufficient reserves.")%string].

Definition slippageHint : list string :=
  [(newline ++ "  Hint: Try increasing the slippage tolerance.")%string].

(** The [if / else if] chain on [error.message] in simple-swap. *)
Definition swapErrorHints (message : option string) : list string :=
  if messageIncludes message "PairNotFound" then pairNotFoundHint
  else if messageIncludes message "InsufficientLiquidity"
       then insufficientLiquidityHint
  else if messageIncludes message "Slippage" then slippageHint
  else [].

(** The same for the [catch] block of provide-liquidity. *)
Definition insufficientBalanceHint : list string :=
  [(newline ++ "  Hint: You do not have enough token balance.")%string;
   "    1. Check your wallet balances"%string;
   "    2. Ensure you have both tokens A and B"%string].

Definition deadlineHint : list string :=
  [(newline ++ "  Hint: The transaction deadline was exceeded.")%string;
   "    Try again with a longer deadline."%string].

Definition liquidityErrorHints (message : option string) : list string :=
  if messageIncludes message "insufficient balance"
  then insufficientBalanceHint
  else if messageIncludes message "deadline" then deadlineHint
  else [].

(** [needle] occurs in [s]: the relation [includes] decides. *)
Definition occursIn (needle s : string) : Prop :=
  exists pre post : string, s = (pre ++ needle ++ post)%string.

(** * The pair-state core

    The scripts only call the pair engine through the SDK client
    ([SwapModule], [LiquidityModule], the pair contract); none of it is among
    the sources.  The definitions of this part are therefore written from the
    specification of the core. *)

(** Modelled from the spec: the error taxonomy of the core (section 7), which
    no source file declares. *)
Inductive Error : Type :=
| ArithmeticOverflow
| DivisionByZero
| PairNotFound
| InsufficientLiquidity
| InsufficientInputAmount
| InsufficientInitialLiquidity
| SlippageExceeded
| InvalidFeeConfig
| FlashLoansDisabled
| InsufficientBalance
| DeadlineExceeded.

Inductive Result (A : Type) : Type :=
| Ok (a : A)
| Err (e : Error).

Arguments Ok {A} a.
Arguments Err {A} e.

Definition bind {A B : Type} (r : Result A) (k : A -> Result B) : Result B :=
  match r with
  | Ok a => k a
  | Err e => Err e
  end.

Notation "x <- r ;; k" := (bind r (fun x => k))
  (at level 61, r at next level, right associativity).

(** Modelled from the spec: the fee state of a pair (section 3). *)
Record FeeState : Type := mkFeeState {
  currentFeeBps : Z;
  feeMin : Z;
  feeMax : Z;
  baselineFee : Z;
  emaAlpha : Z
}.

(** Modelled from the spec: the pair record (section 3).  Token identifiers
    and the flash-loan policy play no part in the transitions below and are
    left out. *)
Record Pair : Type := mkPair {
  reserve0 : Z;
  reserve1 : Z;
  totalSupply : Z;
  price0CumulativeLast : Z;
  price1CumulativeLast : Z;
  blockTimestampLast : Z;
  feeState : FeeState
}.

Module FixedPointMath.

(** Modelled from the spec: [mulDiv(a, b, denominator)] is
    [floor(a*b/denominator)] and fails with [DivisionByZero] on a zero
    denominator (section 4.1).  Integers are unbounded here, so the widened
    product always fits and [ArithmeticOverflow] is never raised. *)
Definition mulDiv (a b denominator : Z) : Result Z :=
  if denominator =? 0 then Err DivisionByZero
  else Ok (a * b / denominator).

End FixedPointMath.

Module DynamicFeeEngine.

(** Modelled from the spec: the clamp to [feeMin, feeMax] of section 4.4,
    part of the fee engine that is not among the sources. *)
Definition clamp (lo hi x : Z) : Z := Z.max lo (Z.min hi x).



Section WithBlend.

(** The EMA blend is a pure function of the previous fee, the externally
    metered signal, the weight and the baseline; the spec fixes no more of
    it than that. *)
Variable blend : Z -> Z -> Z -> Z -> Z.

(** Modelled from the spec: one fee update (section 4.4): blend, then clamp
    to [feeMin, feeMax]. *)
Definition update (st : FeeState) (signal : Z) : FeeState :=
  let blended := blend (currentFeeBps st) signal (emaAlpha st) (baselineFee st) in
  mkFeeState (clamp (feeMin st) (feeMax st) blended)
             (feeMin st) (feeMax st) (baselineFee st) (emaAlpha st).

(** The states observed after each update of a sequence of signals. *)
Fixpoint trace (st : FeeState) (signals : list Z) : list FeeState :=
  match signals with
  | [] => []
  | s :: rest => let st' := update st s in st' :: trace st' rest
  end.

Definition run (st : FeeState) (signals : list Z) : FeeState :=
  fold_left update signals st.


End WithBlend.

(** One admissible blend, used to run the engine on concrete inputs: the
    previous fee moves toward [baseline + signal] by the fraction
    [alpha / alphaOne]. *)
Definition emaBlend (alphaOne prev signal alpha baseline : Z) : Z :=
  prev + alpha * (baseline + signal - prev) / alphaOne.

End DynamicFeeEngine.

Module PriceOracle.

Section WithPrice.

(** [priceQ num den] is the fixed-point representation of [num/den]; the spec
    leaves the Q-format open. *)
Variable priceQ : Z -> Z -> Z.

(** Modelled from the spec: the oracle update of section 4.3, run before new
    reserves are applied. *)
Definition accumulate (p : Pair) (currentTimestamp : Z) : Pair :=
  if blockTimestampLast p <? currentTimestamp then
    let elapsedTime := currentTimestamp - blockTimestampLast p in
    mkPair (reserve0 p) (reserve1 p) (totalSupply p)
           (price0CumulativeLast p + priceQ (reserve1 p) (reserve0 p) * elapsedTime)
           (price1CumulativeLast p + priceQ (reserve0 p) (reserve1 p) * elapsedTime)
           currentTimestamp
           (feeState p)
  else p.

End WithPrice.

(** A UQ112.112-style price, one admissible choice of [priceQ]. *)
Definition Q112 : Z := 2 ^ 112.

Definition uqPrice (num den : Z) : Z := num * Q112 / den.

End PriceOracle.

Module ReserveLedger.

(** Modelled from the spec: what the transaction-submission collaborator
    supplies with a mutating call of the absent ledger: the timestamp for
    the oracle and the metered signal for the fee engine. *)
Record Tick : Type := mkTick {
  currentTimestamp : Z;
  signal : Z
}.

Definition reserveIn (p : Pair) (tokenInIsToken0 : bool) : Z :=
  if tokenInIsToken0 then reserve0 p else reserve1 p.

Definition reserveOut (p : Pair) (tokenInIsToken0 : bool) : Z :=
  if tokenInIsToken0 then reserve1 p else reserve0 p.

(** Modelled from the spec: the constant-product formula of section 4.2,
    routed through [mulDiv] as section 4.1 requires:
    [amountInWithFee = amountIn * (10000 - feeBps)],
    [numerator = amountInWithFee * reserveOut],
    [denominator = reserveIn * 10000 + amountInWithFee]. *)
Definition getAmountOut (amountIn rIn rOut feeBps : Z) : Result Z :=
  let amountInWithFee := amountIn * (10000 - feeBps) in
  let denominator := rIn * 10000 + amountInWithFee in
  FixedPointMath.mulDiv amountInWithFee rOut denominator.

(** Modelled from the spec: the three failure rules section 4.2 gives for a
    swap, absent from the sources like the ledger itself. *)
Inductive Check : Type :=
| CheckInput
| CheckReserve
| CheckOutput.

(** Modelled from the spec: one rule of section 4.2 applied.  [amountIn == 0]
    fails with InsufficientInputAmount, [reserveOut == 0] and
    [amountOut == 0] fail with InsufficientLiquidity; an output that could
    not be computed fails with the error of [mulDiv]. *)
Definition runCheck (c : Check) (amountIn rOut : Z) (computed : Result Z)
  : option Error :=
  match c with
  | CheckInput =>
      if amountIn =? 0 then Some InsufficientInputAmount else None
  | CheckReserve =>
      if rOut =? 0 then Some InsufficientLiquidity else None
  | CheckOutput =>
      match computed with
      | Err e => Some e
      | Ok amountOut =>
          if amountOut =? 0 then Some InsufficientLiquidity else None
      end
  end.

(** The error of the first check to fail, in the order the checks are
    made. *)
Fixpoint firstFailure (order : list Check) (amountIn rOut : Z)
  (computed : Result Z) : option Error :=
  match order with
  | [] => None
  | c :: rest =>
      match runCheck c amountIn rOut computed with
      | Some e => Some e
      | None => firstFailure rest amountIn rOut computed
      end
  end.


(** The six orders of the three checks. *)
Definition checkOrders : list (list Check) :=
  [[CheckInput; CheckReserve; CheckOutput];
   [CheckInput; CheckOutput; CheckReserve];
   [CheckReserve; CheckInput; CheckOutput];
   [CheckReserve; CheckOutput; CheckInput];
   [CheckOutput; CheckInput; CheckReserve];
   [CheckOutput; CheckReserve; CheckInput]].

Section WithCollaborators.

Variable priceQ : Z -> Z -> Z.
Variable blend : Z -> Z -> Z -> Z -> Z.

(** Modelled from the spec: the atomic transition every mutating call ends
    with (sections 4.2 to 4.4): the oracle accumulates over the old reserves,
    the new reserves and supply are applied, the fee is updated. *)
Definition commit (p : Pair) (t : Tick) (r0 r1 supply : Z) : Pair :=
  let observed := PriceOracle.accumulate priceQ p (currentTimestamp t) in
  mkPair r0 r1 supply
         (price0CumulativeLast observed)
         (price1CumulativeLast observed)
         (blockTimestampLast observed)
         (DynamicFeeEngine.update blend (feeState p) (signal t)).

(** Modelled from the spec: [applySwap(amountIn, tokenInIsToken0, feeBps)]
    of section 4.2.  The call returns the state it leaves behind together
    with its outcome.  The spec names the failure rules without an order
    between them, so the order in which they are checked is an argument;
    when no check fails the swap is committed with the computed output. *)
Definition applySwap (order : list Check) (p : Pair) (t : Tick)
  (amountIn : Z) (tokenInIsToken0 : bool) (feeBps : Z) : Pair * Result Z :=
  let rIn := reserveIn p tokenInIsToken0 in
  let rOut := reserveOut p tokenInIsToken0 in
  let computed := getAmountOut amountIn rIn rOut feeBps in
  match firstFailure order amountIn rOut computed with
  | Some e => (p, Err e)
  | None =>
      match computed with
      | Err e => (p, Err e)
      | Ok amountOut =>
          let rIn' := rIn + amountIn in
          let rOut' := rOut - amountOut in
          let r0 := if tokenInIsToken0 then rIn' else rOut' in
          let r1 := if tokenInIsToken0 then rOut' else rIn' in
          (commit p t r0 r1 (totalSupply p), Ok amountOut)
      end
  end.

(** Modelled from the spec: a committed reserve mutation of the absent
    ledger, whichever call it comes from (swap, deposit or withdrawal): the
    tick and the reserves and supply it installs. *)
Record Mutation : Type := mkMutation {
  tick : Tick;
  newReserve0 : Z;
  newReserve1 : Z;
  newTotalSupply : Z
}.

Definition mutate (p : Pair) (m : Mutation) : Pair :=
  commit p (tick m) (newReserve0 m) (newReserve1 m) (newTotalSupply m).

Definition runMutations (p : Pair) (ms : list Mutation) : Pair :=
  fold_left mutate ms p.

End WithCollaborators.

End ReserveLedger.

Module LiquidityEngine.

(** Modelled from the spec: the quote of the absent liquidity engine
    (section 4.5). *)
Record LiquidityQuote : Type := mkLiquidityQuote {
  amountA : Z;
  amountB : Z;
  estimatedLPTokens : Z
}.

(** Modelled from the spec: [quoteAddLiquidity] of section 4.5.
    [minimumLiquidity] is the first-deposit floor, a configuration constant
    the spec does not fix; on an uninitialized pool the counterpart amount is
    the caller's [amountBDesired].  The spec gives no formula for
    [shareOfPool], which is left out of the quote. *)
Definition quoteAddLiquidity (minimumLiquidity : Z) (p : Pair)
  (aIsToken0 : bool) (amountADesired amountBDesired : Z)
  : Result LiquidityQuote :=
  if totalSupply p =? 0 then
    let lp := Z.sqrt (amountADesired * amountBDesired) in
    if lp <? minimumLiquidity then Err InsufficientInitialLiquidity
    else Ok (mkLiquidityQuote amountADesired amountBDesired lp)
  else
    let reserveA := ReserveLedger.reserveIn p aIsToken0 in
    let reserveB := ReserveLedger.reserveOut p aIsToken0 in
    amountBOptimal <- FixedPointMath.mulDiv amountADesired reserveB reserveA ;;
    lpA <- FixedPointMath.mulDiv amountADesired (totalSupply p) reserveA ;;
    lpB <- FixedPointMath.mulDiv amountBOptimal (totalSupply p) reserveB ;;
    Ok (mkLiquidityQuote amountADesired amountBOptimal (Z.min lpA lpB)).

End LiquidityEngine.

(** Concrete states used to run the core. *)
Definition sampleFee : FeeState := mkFeeState 30 10 100 30 2000.

Definition emptyPair : Pair := mkPair 0 0 0 0 0 0 sampleFee.

Definition samplePair : Pair :=
  mkPair 10000000000 10000000000 10000000000 0 0 1700000000 sampleFee.

Definition sampleTick : ReserveLedger.Tick :=
  ReserveLedger.mkTick 1700000005 40.

(** Two mutations carrying the same timestamp. *)
Definition firstMutation : ReserveLedger.Mutation :=
  ReserveLedger.mkMutation sampleTick 10001000000 9999003100 10000000000.

Definition secondMutation : ReserveLedger.Mutation :=
  ReserveLedger.mkMutation sampleTick 10002000000 9998006400 10000000000.

(** * Properties *)

(** ** Arithmetic helpers shared by the developments below *)

Module ZFacts.

Lemma quot_is_floor (a b : Z) : 0 <= a -> 0 < b -> Z.quot a b = a / b.
Proof. intros Ha Hb. apply Z.quot_div_nonneg; assumption. Qed.

Lemma quot_0_r (a : Z) : Z.quot a 0 = 0.
Proof. destruct a; reflexivity. Qed.

Lemma div_nonneg (a b : Z) : 0 <= a -> 0 <= b -> 0 <= a / b.
Proof.
intros Ha Hb.
destruct (Z.eq_dec b 0) as [Hz | Hnz].
- subst b. rewrite Z.div_0_r. lia.
- apply Z.div_pos; lia.
Qed.

Lemma div_le_of_mul_le (q x d : Z) : 0 < d -> q * d <= x -> q <= x / d.
Proof.
intros Hd Hq.
apply Z.div_le_lower_bound; [assumption|].
rewrite Z.mul_comm; assumption.
Qed.

Lemma div_mul_le (x d : Z) : 0 < d -> x / d * d <= x.
Proof.
intros Hd. rewrite Z.mul_comm. apply Z.mul_div_le; assumption.
Qed.

Lemma div_zero_quot_zero (a b : Z) : b <> 0 -> a / b = 0 -> Z.quot a b = 0.
Proof.
intros Hb Hdiv.
apply Z.div_small_iff in Hdiv; [|assumption].
destruct Hdiv as [Hpos | Hneg].
- apply Z.quot_small; assumption.
- rewrite <- (Z.quot_opp_opp a b) by assumption.
  apply Z.quot_small; lia.
Qed.

End ZFacts.

(** ** The swap output estimate *)

Section SwapEstimate.

Variables amountIn reserveIn reserveOut feeBps : Z.
Hypothesis reserveIn_pos : 0 < reserveIn.
Hypothesis reserveOut_pos : 0 < reserveOut.
Hypothesis feeBps_range : 0 <= feeBps <= 10000.
Hypothesis amountIn_pos : 0 < amountIn.

Lemma amountInWithFee_nonneg : 0 <= amountIn * (10000 - feeBps).
Proof. nia. Qed.

Lemma denominator_pos : 0 < reserveIn * 10000 + amountIn * (10000 - feeBps).
Proof. pose proof amountInWithFee_nonneg. lia. Qed.

Lemma estimatedOut_floor :
  estimatedOut amountIn reserveIn reserveOut feeBps
  = amountIn * (10000 - feeBps) * reserveOut
    / (reserveIn * 10000 + amountIn * (10000 - feeBps)).
Proof.
unfold estimatedOut.
apply ZFacts.quot_is_floor.
- pose proof amountInWithFee_nonneg. nia.
- exact denominator_pos.
Qed.

Lemma estimateSwapOutput_some :
  estimateSwapOutput amountIn reserveIn reserveOut feeBps
  = Some (estimatedOut amountIn reserveIn reserveOut feeBps).
Proof.
unfold estimateSwapOutput.
destruct (Z.ltb_spec 0 reserveIn); [|lia].
destruct (Z.ltb_spec 0 reserveOut); [|lia].
reflexivity.
Qed.

Lemma estimatedOut_nonneg :
  0 <= estimatedOut amountIn reserveIn reserveOut feeBps.
Proof.
rewrite estimatedOut_floor.
apply Z.div_pos.
- pose proof amountInWithFee_nonneg. nia.
- exact denominator_pos.
Qed.

(** The output times the denominator stays below the numerator: the one
    fact about the floor the bounds below rest on. *)
Lemma estimatedOut_mul_denominator :
  estimatedOut amountIn reserveIn reserveOut feeBps
  * (reserveIn * 10000 + amountIn * (10000 - feeBps))
  <= amountIn * (10000 - feeBps) * reserveOut.
Proof.
rewrite estimatedOut_floor.
apply ZFacts.div_mul_le. exact denominator_pos.
Qed.

Lemma estimatedOut_times_reserveIn :
  estimatedOut amountIn reserveIn reserveOut feeBps * reserveIn
  <= amountIn * reserveOut.
Proof.
pose proof estimatedOut_mul_denominator as Hfloor.
pose proof estimatedOut_nonneg as Hout.
set (out := estimatedOut amountIn reserveIn reserveOut feeBps) in *.
assert (Hfee : out * (reserveIn * 10000) <= amountIn * 10000 * reserveOut) by nia.
nia.
Qed.

Lemma estimatedOut_le_ideal :
  estimatedOut amountIn reserveIn reserveOut feeBps
  <= amountIn * reserveOut / reserveIn.
Proof.
apply ZFacts.div_le_of_mul_le; [assumption|].
exact estimatedOut_times_reserveIn.
Qed.

Lemma product_grows :
  reserveIn * reserveOut
  <= (reserveIn + amountIn)
     * (reserveOut - estimatedOut amountIn reserveIn reserveOut feeBps).
Proof.
pose proof estimatedOut_mul_denominator as Hfloor.
pose proof estimatedOut_nonneg as Hout.
set (out := estimatedOut amountIn reserveIn reserveOut feeBps) in *.
assert (Hkey : (reserveIn + amountIn) * out <= amountIn * reserveOut).
{ destruct (Z.eq_dec feeBps 10000) as [Hfull | Hpart].
  - subst feeBps. assert (out = 0) by nia. nia.
  - assert (Hf : 0 < 10000 - feeBps) by lia.
    assert (Hscaled : (reserveIn + amountIn) * out * (10000 - feeBps)
                      <= amountIn * reserveOut * (10000 - feeBps)) by nia.
    nia. }
nia.
Qed.

End SwapEstimate.

(** C1.  With positive reserves, a fee of 0 to 10000 basis points and a
    positive input, the estimate is made and equals
    floor(amountIn*(10000-feeBps)*reserveOut
          / (reserveIn*10000 + amountIn*(10000-feeBps)));
    for reserves (1_000_000_0000, 1_000_000_0000), a fee of 30 and the
    script's input of 1_000_000 this is the value of the formula with
    amountInWithFee = 1_000_000 * 9970, namely 996900. *)
Theorem swap_output_is_floor_formula :
  (forall amountIn reserveIn reserveOut feeBps : Z,
      0 < reserveIn -> 0 < reserveOut -> 0 <= feeBps <= 10000 ->
      0 < amountIn ->
      estimateSwapOutput amountIn reserveIn reserveOut feeBps
      = Some (amountIn * (10000 - feeBps) * reserveOut
              / (reserveIn * 10000 + amountIn * (10000 - feeBps))))
  /\ estimateSwapOutput testAmount 10000000000 10000000000 30
     = Some (1000000 * 9970 * 10000000000
             / (10000000000 * 10000 + 1000000 * 9970))
  /\ 1000000 * 9970 * 10000000000
     / (10000000000 * 10000 + 1000000 * 9970) = 996900.
Proof.
split; [|split].
- intros amountIn reserveIn reserveOut feeBps Hin Hout Hfee Hamt.
  rewrite estimateSwapOutput_some by assumption.
  f_equal. apply estimatedOut_floor; assumption.
- vm_compute. reflexivity.
- vm_compute. reflexivity.
Qed.

Lemma swap_output_is_floor_formula_witness :
  estimateSwapOutput 5 100 200 30
  = Some (5 * (10000 - 30) * 200 / (100 * 10000 + 5 * (10000 - 30))).
Proof.
apply (proj1 swap_output_is_floor_formula 5 100 200 30); lia.
Defined.

(** C2.  For a swap priced by the constant-product formula, with positive
    reserves, positive input and a fee of 0 to 10000 basis points, the
    product of the reserves after the swap,
    (reserveIn + amountIn) * (reserveOut - amountOut), is at least the
    product reserveIn * reserveOut before it. *)
Theorem swap_product_never_decreases :
  forall amountIn reserveIn reserveOut feeBps : Z,
    0 < reserveIn -> 0 < reserveOut -> 0 < amountIn ->
    0 <= feeBps <= 10000 ->
    exists amountOut : Z,
      estimateSwapOutput amountIn reserveIn reserveOut feeBps = Some amountOut
      /\ amountOut = amountIn * (10000 - feeBps) * reserveOut
                     / (reserveIn * 10000 + amountIn * (10000 - feeBps))
      /\ (reserveIn + amountIn) * (reserveOut - amountOut)
         >= reserveIn * reserveOut.
Proof.
intros amountIn reserveIn reserveOut feeBps Hin Hout Hamt Hfee.
exists (estimatedOut amountIn reserveIn reserveOut feeBps).
split; [|split].
- apply estimateSwapOutput_some; assumption.
- apply estimatedOut_floor; assumption.
- apply Z.le_ge. apply product_grows; assumption.
Qed.

Lemma swap_product_never_decreases_witness :
  exists amountOut : Z,
    estimateSwapOutput 1000000 10000000000 10000000000 30 = Some amountOut
    /\ amountOut = 1000000 * (10000 - 30) * 10000000000
                   / (10000000000 * 10000 + 1000000 * (10000 - 30))
    /\ (10000000000 + 1000000) * (10000000000 - amountOut)
       >= 10000000000 * 10000000000.
Proof.
apply (swap_product_never_decreases 1000000 10000000000 10000000000 30); lia.
Defined.

(** ** Price impact *)

Lemma calculatePriceImpact_of_bps (amountIn amountOut reserveIn reserveOut : Z) :
  (calculatePriceImpact amountIn amountOut reserveIn reserveOut
   == inject_Z (impactBps amountIn amountOut reserveIn reserveOut) / 100)%Q.
Proof.
unfold calculatePriceImpact, impactBps.
destruct ((reserveIn =? 0) || (reserveOut =? 0)); [reflexivity|].
cbv zeta.
destruct (Z.quot (amountIn * reserveOut) reserveIn =? 0); reflexivity.
Qed.

Lemma percent_of_bps_range (bps : Z) :
  0 <= bps <= 10000 -> (0 <= inject_Z bps / 100 <= 100)%Q.
Proof.
intros Hbps.
unfold Qle, Qdiv, Qmult, Qinv, inject_Z; simpl.
lia.
Qed.

Lemma idealOut_floor (amountIn reserveIn reserveOut : Z) :
  0 <= amountIn -> 0 <= reserveOut -> 0 <= reserveIn ->
  Z.quot (amountIn * reserveOut) reserveIn = amountIn * reserveOut / reserveIn.
Proof.
intros Hamt Hout Hin.
destruct (Z.eq_dec reserveIn 0) as [Hz | Hnz].
- subst reserveIn. rewrite ZFacts.quot_0_r, Z.div_0_r. reflexivity.
- apply ZFacts.quot_is_floor; nia.
Qed.

Lemma impactBps_unfold (amountIn amountOut reserveIn reserveOut : Z) :
  reserveIn <> 0 -> reserveOut <> 0 ->
  impactBps amountIn amountOut reserveIn reserveOut
  = Z.quot ((Z.quot (amountIn * reserveOut) reserveIn - amountOut) * 10000)
           (Z.quot (amountIn * reserveOut) reserveIn).
Proof.
intros Hin Hout.
unfold impactBps.
destruct (Z.eqb_spec reserveIn 0); [contradiction|].
destruct (Z.eqb_spec reserveOut 0); [contradiction|].
cbn [orb]. cbv zeta.
destruct (Z.eqb_spec (Z.quot (amountIn * reserveOut) reserveIn) 0) as [Hz | Hnz].
- rewrite Hz. rewrite ZFacts.quot_0_r. reflexivity.
- reflexivity.
Qed.

Lemma impactBps_range (amountIn amountOut reserveIn reserveOut : Z) :
  0 <= amountOut <= Z.quot (amountIn * reserveOut) reserveIn ->
  0 <= impactBps amountIn amountOut reserveIn reserveOut <= 10000.
Proof.
intros Hout.
unfold impactBps.
destruct ((reserveIn =? 0) || (reserveOut =? 0)); [lia|].
cbv zeta.
set (idealOut := Z.quot (amountIn * reserveOut) reserveIn) in *.
destruct (Z.eqb_spec idealOut 0) as [Hz | Hnz]; [lia|].
assert (Hpos : 0 < idealOut) by lia.
rewrite ZFacts.quot_is_floor by nia.
split.
- apply Z.div_pos; nia.
- apply Z.div_le_upper_bound; nia.
Qed.

(** C4.  The price impact in basis points, the [impact] of
    [calculatePriceImpact], equals ((idealOut - amountOut) * 10000) / idealOut
    with idealOut = floor(amountIn * reserveOut / reserveIn), and it is zero
    whenever either reserve is zero.  The division is the truncating one of
    [bigint], which is the floor as long as amountOut does not exceed
    idealOut; where idealOut is 0 the code returns 0, the value the total
    division of [Z] has there as well.  The function hands this value back
    as a percentage, divided by 100. *)
Theorem price_impact_bps_formula :
  forall amountIn amountOut reserveIn reserveOut : Z,
    (reserveIn = 0 \/ reserveOut = 0 ->
     impactBps amountIn amountOut reserveIn reserveOut = 0)
    /\ (0 <= amountIn -> 0 <= reserveIn -> 0 <= reserveOut ->
        let idealOut := amountIn * reserveOut / reserveIn in
        impactBps amountIn amountOut reserveIn reserveOut
        = Z.quot ((idealOut - amountOut) * 10000) idealOut
        /\ (amountOut <= idealOut ->
            impactBps amountIn amountOut reserveIn reserveOut
            = (idealOut - amountOut) * 10000 / idealOut))
    /\ (calculatePriceImpact amountIn amountOut reserveIn reserveOut
        == inject_Z (impactBps amountIn amountOut reserveIn reserveOut) / 100)%Q.
Proof.
intros amountIn amountOut reserveIn reserveOut.
assert (Hzero : reserveIn = 0 \/ reserveOut = 0 ->
                impactBps amountIn amountOut reserveIn reserveOut = 0).
{ intros [Hin | Hout]; unfold impactBps.
  - subst reserveIn. reflexivity.
  - subst reserveOut. rewrite Z.eqb_refl, orb_true_r. reflexivity. }
split; [exact Hzero|]. split.
- intros Hamt Hin Hout idealOut.
  assert (Hquot : impactBps amountIn amountOut reserveIn reserveOut
                  = Z.quot ((idealOut - amountOut) * 10000) idealOut).
  { subst idealOut.
    rewrite <- (idealOut_floor amountIn reserveIn reserveOut) by assumption.
    destruct (Z.eq_dec reserveIn 0) as [Hin0 | Hin0].
    - rewrite Hzero by (left; assumption).
      subst reserveIn. rewrite !ZFacts.quot_0_r. reflexivity.
    - destruct (Z.eq_dec reserveOut 0) as [Hout0 | Hout0].
      + rewrite Hzero by (right; assumption).
        subst reserveOut. rewrite Z.mul_0_r, Z.quot_0_l by assumption.
        rewrite ZFacts.quot_0_r. reflexivity.
      + apply impactBps_unfold; assumption. }
  split; [exact Hquot|].
  intros Hle. rewrite Hquot.
  assert (Hideal : 0 <= idealOut).
  { subst idealOut. apply ZFacts.div_nonneg; nia. }
  destruct (Z.eq_dec idealOut 0) as [Hz | Hnz].
  + rewrite Hz, ZFacts.quot_0_r, Z.div_0_r. reflexivity.
  + apply ZFacts.quot_is_floor; nia.
- apply calculatePriceImpact_of_bps.
Qed.

Lemma price_impact_bps_formula_witness :
  impactBps 1000000 996900 10000000000 10000000000
  = (1000000 * 10000000000 / 10000000000 - 996900) * 10000
    / (1000000 * 10000000000 / 10000000000)
  /\ impactBps 1000000 996900 0 10000000000 = 0.
Proof.
pose proof (price_impact_bps_formula 1000000 996900 10000000000 10000000000)
  as [_ [Hformula _]].
pose proof (price_impact_bps_formula 1000000 996900 0 10000000000)
  as [Hzero _].
split.
- apply Hformula; [lia | lia | lia | vm_compute; discriminate].
- apply Hzero. left. reflexivity.
Defined.

(** C9.  [calculatePriceImpact] returns 0 whenever the ideal output
    floor(amountIn * reserveOut / reserveIn) is 0; this covers two positive
    reserves with amountIn * reserveOut < reserveIn and not only a zero
    reserve, so an input small enough against the reserve ratio always
    reports an impact of exactly 0. *)
Theorem price_impact_zero_when_ideal_output_zero :
  forall amountIn amountOut reserveIn reserveOut : Z,
    (amountIn * reserveOut / reserveIn = 0 ->
     calculatePriceImpact amountIn amountOut reserveIn reserveOut = 0%Q)
    /\ (0 <= amountIn -> 0 < reserveIn -> 0 < reserveOut ->
        amountIn * reserveOut < reserveIn ->
        calculatePriceImpact amountIn amountOut reserveIn reserveOut = 0%Q).
Proof.
intros amountIn amountOut reserveIn reserveOut.
assert (Hideal : amountIn * reserveOut / reserveIn = 0 ->
                 calculatePriceImpact amountIn amountOut reserveIn reserveOut
                 = 0%Q).
{ intros Hdiv. unfold calculatePriceImpact.
  destruct (Z.eqb_spec reserveIn 0) as [Hin | Hin]; [reflexivity|].
  destruct (reserveOut =? 0); [reflexivity|].
  cbn [orb]. cbv zeta.
  rewrite (ZFacts.div_zero_quot_zero _ _ Hin Hdiv).
  reflexivity. }
split; [exact Hideal|].
intros Hamt Hin Hout Hsmall.
apply Hideal. apply Z.div_small. nia.
Qed.

Lemma price_impact_zero_when_ideal_output_zero_witness :
  calculatePriceImpact 3 1 1000 200 = 0%Q.
Proof.
apply (proj2 (price_impact_zero_when_ideal_output_zero 3 1 1000 200)); lia.
Defined.

(** C10.  With positive reserves, a positive input and a fee of 0 to 10000
    basis points, the constant-product estimate never exceeds the ideal
    output floor(amountIn * reserveOut / reserveIn); the price impact
    [calculatePriceImpact] reports for that estimate is therefore at least 0
    and at most 100 (percent). *)
Theorem estimate_at_most_ideal_and_impact_within_percent :
  forall amountIn reserveIn reserveOut feeBps : Z,
    0 < reserveIn -> 0 < reserveOut -> 0 < amountIn ->
    0 <= feeBps <= 10000 ->
    let amountOut := amountIn * (10000 - feeBps) * reserveOut
                     / (reserveIn * 10000 + amountIn * (10000 - feeBps)) in
    estimateSwapOutput amountIn reserveIn reserveOut feeBps = Some amountOut
    /\ amountOut <= amountIn * reserveOut / reserveIn
    /\ (0 <= calculatePriceImpact amountIn amountOut reserveIn reserveOut
        <= 100)%Q.
Proof.
intros amountIn reserveIn reserveOut feeBps Hin Hout Hamt Hfee amountOut.
assert (Heq : estimatedOut amountIn reserveIn reserveOut feeBps = amountOut)
  by (apply estimatedOut_floor; assumption).
assert (Hle : amountOut <= amountIn * reserveOut / reserveIn).
{ rewrite <- Heq. apply estimatedOut_le_ideal; assumption. }
assert (Hnonneg : 0 <= amountOut).
{ rewrite <- Heq. apply estimatedOut_nonneg; assumption. }
split; [|split].
- rewrite estimateSwapOutput_some by assumption. f_equal. exact Heq.
- exact Hle.
- assert (Hbps : 0 <= impactBps amountIn amountOut reserveIn reserveOut <= 10000).
  { apply impactBps_range.
    rewrite idealOut_floor by lia. lia. }
  pose proof (percent_of_bps_range _ Hbps) as [Hlo Hhi].
  pose proof (calculatePriceImpact_of_bps amountIn amountOut reserveIn reserveOut)
    as Hpct.
  split.
  + rewrite Hpct. exact Hlo.
  + rewrite Hpct. exact Hhi.
Qed.

Lemma estimate_at_most_ideal_and_impact_within_percent_witness :
  estimateSwapOutput 1000000 10000000000 10000000000 30 = Some 996900
  /\ 996900 <= 1000000 * 10000000000 / 10000000000
  /\ (0 <= calculatePriceImpact 1000000 996900 10000000000 10000000000
      <= 100)%Q.
Proof.
apply (estimate_at_most_ideal_and_impact_within_percent
         1000000 10000000000 10000000000 30); lia.
Defined.

(** ** Slippage minimum *)

Lemma amountMin_floor (amount slippage : Z) :
  0 <= amount -> slippage <= 10000 ->
  amountMin amount slippage = amount * (10000 - slippage) / 10000.
Proof.
intros Hamt Hslip. unfold amountMin.
apply ZFacts.quot_is_floor; nia.
Qed.

(** C3, as stated, fails on a zero amount: with the script's tolerance of
    100 basis points the minimum of 0 is 0, equal to the amount although the
    tolerance is not 0. *)
Lemma amountMin_equal_with_nonzero_slippage :
  0 <= slippageBps <= 10000
  /\ amountMin 0 slippageBps = 0
  /\ slippageBps <> 0.
Proof.
repeat split; vm_compute; discriminate.
Qed.

(** C3, amended.  For a non-negative amount and a tolerance of 0 to 10000
    basis points, the minimum floor(amount * (10000 - slippageBps) / 10000)
    never exceeds the amount, and equals it exactly when the tolerance is 0
    or the amount is 0. *)
Theorem amountMin_at_most_amount :
  forall amountOut slippage : Z,
    0 <= amountOut -> 0 <= slippage <= 10000 ->
    amountMin amountOut slippage = amountOut * (10000 - slippage) / 10000
    /\ amountMin amountOut slippage <= amountOut
    /\ (amountMin amountOut slippage = amountOut
        <-> slippage = 0 \/ amountOut = 0).
Proof.
intros amountOut slippage Hamt Hslip.
rewrite amountMin_floor by lia.
set (m := amountOut * (10000 - slippage) / 10000).
assert (Hlo : m * 10000 <= amountOut * (10000 - slippage)).
{ apply ZFacts.div_mul_le. lia. }
assert (Hhi : amountOut * (10000 - slippage) < (m + 1) * 10000).
{ subst m.
  pose proof (Z.mul_succ_div_gt (amountOut * (10000 - slippage)) 10000).
  lia. }
split; [reflexivity|]. split.
- nia.
- split.
  + intros Heq. rewrite Heq in Hlo.
    destruct (Z.eq_dec slippage 0) as [Hs | Hs]; [left; exact Hs|].
    right. nia.
  + intros [Hs | Ha].
    * subst slippage. subst m. rewrite Z.sub_0_r. apply Z.div_mul. lia.
    * subst amountOut. reflexivity.
Qed.

Lemma amountMin_at_most_amount_witness :
  amountMin 1000000000 100 = 1000000000 * (10000 - 100) / 10000
  /\ amountMin 1000000000 100 <= 1000000000
  /\ (amountMin 1000000000 100 = 1000000000 <-> 100 = 0 \/ 1000000000 = 0).
Proof.
apply (amountMin_at_most_amount 1000000000 100); lia.
Defined.

(** ** The dynamic fee engine *)

Section FeeEngine.

Import DynamicFeeEngine.

Variable blend : Z -> Z -> Z -> Z -> Z.


Lemma clamp_id (lo hi x : Z) : lo <= x <= hi -> clamp lo hi x = x.
Proof. intros Hx. unfold clamp. lia. Qed.

Lemma update_keeps_config (st : FeeState) (signal : Z) :
  feeMin (update blend st signal) = feeMin st
  /\ feeMax (update blend st signal) = feeMax st
  /\ baselineFee (update blend st signal) = baselineFee st
  /\ emaAlpha (update blend st signal) = emaAlpha st.
Proof. repeat split. Qed.





Lemma run_snoc (st : FeeState) (signals : list Z) (s : Z) :
  run blend st (signals ++ [s]) = update blend (run blend st signals) s.
Proof. unfold run. rewrite fold_left_app. reflexivity. Qed.


End FeeEngine.



Example fee_clamped_at_both_ends :
  map currentFeeBps
      (DynamicFeeEngine.trace (DynamicFeeEngine.emaBlend 10000) sampleFee
         [1000000000; -1000000000; 0; 77])
  = [100; 10; 14; 32].
Proof. vm_compute. reflexivity. Qed.

(** ** The price oracle *)

Section Oracle.

Import PriceOracle ReserveLedger.

Variable priceQ : Z -> Z -> Z.
Variable blend : Z -> Z -> Z -> Z -> Z.

Lemma accumulate_timestamp (p : Pair) (now : Z) :
  blockTimestampLast (accumulate priceQ p now)
  = Z.max (blockTimestampLast p) now.
Proof.
unfold accumulate.
destruct (Z.ltb_spec (blockTimestampLast p) now);
  cbn [blockTimestampLast]; lia.
Qed.

Lemma accumulate_not_later (p : Pair) (now : Z) :
  now <= blockTimestampLast p -> accumulate priceQ p now = p.
Proof.
intros Hnow. unfold accumulate.
destruct (Z.ltb_spec (blockTimestampLast p) now); [lia | reflexivity].
Qed.

Lemma accumulate_later (p : Pair) (now : Z) :
  blockTimestampLast p < now ->
  price0CumulativeLast (accumulate priceQ p now)
  = price0CumulativeLast p
    + priceQ (reserve1 p) (reserve0 p) * (now - blockTimestampLast p)
  /\ price1CumulativeLast (accumulate priceQ p now)
     = price1CumulativeLast p
       + priceQ (reserve0 p) (reserve1 p) * (now - blockTimestampLast p).
Proof.
intros Hnow. unfold accumulate.
destruct (Z.ltb_spec (blockTimestampLast p) now); [|lia].
split; reflexivity.
Qed.

Lemma mutate_timestamp (p : Pair) (m : Mutation) :
  blockTimestampLast (mutate priceQ blend p m)
  = Z.max (blockTimestampLast p) (currentTimestamp (tick m)).
Proof.
unfold mutate, commit; cbn [blockTimestampLast].
apply accumulate_timestamp.
Qed.

Lemma mutate_not_later (p : Pair) (m : Mutation) :
  currentTimestamp (tick m) <= blockTimestampLast p ->
  price0CumulativeLast (mutate priceQ blend p m) = price0CumulativeLast p
  /\ price1CumulativeLast (mutate priceQ blend p m) = price1CumulativeLast p
  /\ blockTimestampLast (mutate priceQ blend p m) = blockTimestampLast p.
Proof.
intros Hnow.
unfold mutate, commit;
  cbn [price0CumulativeLast price1CumulativeLast blockTimestampLast].
rewrite accumulate_not_later by assumption.
repeat split.
Qed.

Lemma runMutations_timestamp (ms : list Mutation) :
  forall p : Pair,
    blockTimestampLast p
    <= blockTimestampLast (runMutations priceQ blend p ms).
Proof.
induction ms as [|m rest IH]; intros p.
- apply Z.le_refl.
- change (runMutations priceQ blend p (m :: rest))
    with (runMutations priceQ blend (mutate priceQ blend p m) rest).
  specialize (IH (mutate priceQ blend p m)).
  rewrite mutate_timestamp in IH. lia.
Qed.

Lemma runMutations_app (p : Pair) (ms1 ms2 : list Mutation) :
  runMutations priceQ blend p (ms1 ++ ms2)
  = runMutations priceQ blend (runMutations priceQ blend p ms1) ms2.
Proof. unfold runMutations. apply fold_left_app. Qed.

End Oracle.

(** C7.  Along every sequence of reserve mutations of a pair
    [blockTimestampLast] never goes back, and a mutation whose timestamp is
    not later than [blockTimestampLast] (in particular a second one at the
    same timestamp) leaves both cumulative prices as they were: they
    accumulate only when the timestamp is later, once, over the elapsed
    time. *)
Theorem timestamp_monotone_and_accumulation_once :
  forall (priceQ : Z -> Z -> Z) (blend : Z -> Z -> Z -> Z -> Z) (p : Pair),
    (forall ms1 ms2 : list ReserveLedger.Mutation,
        blockTimestampLast (ReserveLedger.runMutations priceQ blend p ms1)
        <= blockTimestampLast
             (ReserveLedger.runMutations priceQ blend p (ms1 ++ ms2)))
    /\ (forall m : ReserveLedger.Mutation,
           ReserveLedger.currentTimestamp (ReserveLedger.tick m)
           = blockTimestampLast p ->
           price0CumulativeLast (ReserveLedger.mutate priceQ blend p m)
           = price0CumulativeLast p
           /\ price1CumulativeLast (ReserveLedger.mutate priceQ blend p m)
              = price1CumulativeLast p)
    /\ (forall m m' : ReserveLedger.Mutation,
           ReserveLedger.currentTimestamp (ReserveLedger.tick m')
           = ReserveLedger.currentTimestamp (ReserveLedger.tick m) ->
           let p1 := ReserveLedger.mutate priceQ blend p m in
           let p2 := ReserveLedger.mutate priceQ blend p1 m' in
           price0CumulativeLast p2 = price0CumulativeLast p1
           /\ price1CumulativeLast p2 = price1CumulativeLast p1
           /\ blockTimestampLast p2 = blockTimestampLast p1)
    /\ (forall m : ReserveLedger.Mutation,
           let now := ReserveLedger.currentTimestamp (ReserveLedger.tick m) in
           let p' := ReserveLedger.mutate priceQ blend p m in
           (now <= blockTimestampLast p ->
            price0CumulativeLast p' = price0CumulativeLast p
            /\ price1CumulativeLast p' = price1CumulativeLast p)
           /\ (blockTimestampLast p < now ->
               blockTimestampLast p' = now
               /\ price0CumulativeLast p'
                  = price0CumulativeLast p
                    + priceQ (reserve1 p) (reserve0 p)
                      * (now - blockTimestampLast p)
               /\ price1CumulativeLast p'
                  = price1CumulativeLast p
                    + priceQ (reserve0 p) (reserve1 p)
                      * (now - blockTimestampLast p))).
Proof.
intros priceQ blend p.
split; [|split; [|split]].
- intros ms1 ms2. rewrite runMutations_app. apply runMutations_timestamp.
- intros m Hsame.
  destruct (mutate_not_later priceQ blend p m) as [H0 [H1 _]]; [lia|].
  split; assumption.
- intros m m' Hsame p1 p2.
  apply mutate_not_later.
  subst p1. rewrite mutate_timestamp. lia.
- intros m now p'. split.
  + intros Hnow.
    destruct (mutate_not_later priceQ blend p m) as [H0 [H1 _]];
      [exact Hnow|].
    split; assumption.
  + intros Hnow. subst p'. rewrite mutate_timestamp.
    split; [subst now; lia|].
    unfold ReserveLedger.mutate, ReserveLedger.commit;
      cbn [price0CumulativeLast price1CumulativeLast].
    apply accumulate_later. exact Hnow.
Qed.

Lemma timestamp_monotone_and_accumulation_once_witness :
  let p1 := ReserveLedger.mutate PriceOracle.uqPrice
              (DynamicFeeEngine.emaBlend 10000) samplePair firstMutation in
  let p2 := ReserveLedger.mutate PriceOracle.uqPrice
              (DynamicFeeEngine.emaBlend 10000) p1 secondMutation in
  price0CumulativeLast p2 = price0CumulativeLast p1
  /\ price1CumulativeLast p2 = price1CumulativeLast p1
  /\ blockTimestampLast p2 = blockTimestampLast p1.
Proof.
pose proof (timestamp_monotone_and_accumulation_once PriceOracle.uqPrice
              (DynamicFeeEngine.emaBlend 10000) samplePair)
  as [_ [_ [Hsecond _]]].
apply (Hsecond firstMutation secondMutation).
reflexivity.
Defined.

Example oracle_accumulates_on_first_mutation :
  let p1 := ReserveLedger.mutate PriceOracle.uqPrice
              (DynamicFeeEngine.emaBlend 10000) samplePair firstMutation in
  price0CumulativeLast p1 = 5 * PriceOracle.Q112
  /\ price1CumulativeLast p1 = 5 * PriceOracle.Q112
  /\ blockTimestampLast p1 = 1700000005
  /\ reserve0 p1 = 10001000000.
Proof. vm_compute. repeat split. Qed.

(** ** The reserve ledger *)

Section Ledger.

Import FixedPointMath ReserveLedger.

Variable priceQ : Z -> Z -> Z.
Variable blend : Z -> Z -> Z -> Z -> Z.

Lemma mulDiv_ok (a b d : Z) : d <> 0 -> mulDiv a b d = Ok (a * b / d).
Proof.
intros Hd. unfold mulDiv.
destruct (Z.eqb_spec d 0); [contradiction | reflexivity].
Qed.


(** On the inputs of a well-formed swap the ledger's formula is the estimate
    of the read-reserves script. *)
Lemma getAmountOut_is_estimate (amountIn rIn rOut feeBps : Z) :
  0 < rIn -> 0 < rOut -> 0 <= feeBps <= 10000 -> 0 < amountIn ->
  getAmountOut amountIn rIn rOut feeBps
  = Ok (estimatedOut amountIn rIn rOut feeBps).
Proof.
intros Hin Hout Hfee Hamt.
rewrite estimatedOut_floor by assumption.
unfold getAmountOut. cbv zeta.
apply mulDiv_ok. nia.
Qed.





(** The ways a swap can end: a check fails, or all pass and the computed
    output is committed. *)
Lemma applySwap_cases (order : list Check) (p : Pair) (t : Tick)
      (amountIn : Z) (side : bool) (feeBps : Z) :
  let rIn := reserveIn p side in
  let rOut := reserveOut p side in
  let computed := getAmountOut amountIn rIn rOut feeBps in
  (exists e : Error,
      firstFailure order amountIn rOut computed = Some e
      /\ applySwap priceQ blend order p t amountIn side feeBps = (p, Err e))
  \/ (exists e : Error,
         firstFailure order amountIn rOut computed = None
         /\ computed = Err e
         /\ applySwap priceQ blend order p t amountIn side feeBps
            = (p, Err e))
  \/ (exists amountOut : Z,
         firstFailure order amountIn rOut computed = None
         /\ computed = Ok amountOut
         /\ applySwap priceQ blend order p t amountIn side feeBps
            = (commit priceQ blend p t
                 (if side then rIn + amountIn else rOut - amountOut)
                 (if side then rOut - amountOut else rIn + amountIn)
                 (totalSupply p),
               Ok amountOut)).
Proof.
intros rIn rOut computed. unfold applySwap.
fold rIn. fold rOut. fold computed. cbv zeta.
destruct (firstFailure order amountIn rOut computed) as [e|] eqn:Hfirst.
- left. exists e. split; reflexivity.
- right. destruct computed as [amountOut | e] eqn:Hget.
  + right. exists amountOut. repeat split.
  + left. exists e. repeat split.
Qed.

End Ledger.


(** No order of the checks reconciles the two error rules of C8 as stated:
    whatever a swap returns, it cannot fail with InsufficientInputAmount
    exactly on a zero input and also fail with InsufficientLiquidity on
    every zero output. *)
Lemma swap_error_rules_exclude_each_other :
  forall outcome : Pair -> Z -> bool -> Z -> Result Z,
    ~ ((forall p amountIn side feeBps,
           outcome p amountIn side feeBps = Err InsufficientInputAmount
           <-> amountIn = 0)
       /\ (forall p amountIn side feeBps,
              ReserveLedger.reserveOut p side = 0
              \/ ReserveLedger.getAmountOut amountIn
                   (ReserveLedger.reserveIn p side)
                   (ReserveLedger.reserveOut p side) feeBps = Ok 0 ->
              outcome p amountIn side feeBps = Err InsufficientLiquidity)).
Proof.
intros outcome [Hinput Hliquidity].
assert (Hiia : outcome samplePair 0 true 30 = Err InsufficientInputAmount)
  by (apply Hinput; reflexivity).
assert (Hil : outcome samplePair 0 true 30 = Err InsufficientLiquidity)
  by (apply Hliquidity; right; reflexivity).
congruence.
Qed.



(** A successful swap installs reserveIn + amountIn and
    reserveOut - amountOut, with the output of the estimate, and the product
    of the reserves does not decrease, whatever the order of the checks. *)
Lemma applySwap_ok_product (priceQ : Z -> Z -> Z)
      (blend : Z -> Z -> Z -> Z -> Z) (order : list ReserveLedger.Check)
      (p : Pair) (t : ReserveLedger.Tick)
      (amountIn : Z) (side : bool) (feeBps amountOut : Z) :
  0 < ReserveLedger.reserveIn p side -> 0 < ReserveLedger.reserveOut p side ->
  0 < amountIn -> 0 <= feeBps <= 10000 ->
  snd (ReserveLedger.applySwap priceQ blend order p t amountIn side feeBps)
  = Ok amountOut ->
  let p' :=
    fst (ReserveLedger.applySwap priceQ blend order p t amountIn side feeBps) in
  amountOut = estimatedOut amountIn (ReserveLedger.reserveIn p side)
                (ReserveLedger.reserveOut p side) feeBps
  /\ ReserveLedger.reserveIn p' side = ReserveLedger.reserveIn p side + amountIn
  /\ ReserveLedger.reserveOut p' side
     = ReserveLedger.reserveOut p side - amountOut
  /\ ReserveLedger.reserveIn p side * ReserveLedger.reserveOut p side
     <= ReserveLedger.reserveIn p' side * ReserveLedger.reserveOut p' side.
Proof.
intros Hin Hout Hamt Hfee Hok p'.
pose proof (applySwap_cases priceQ blend order p t amountIn side feeBps)
  as Hcases.
cbv zeta in Hcases.
rewrite (getAmountOut_is_estimate amountIn _ _ feeBps Hin Hout Hfee Hamt)
  in Hcases.
destruct Hcases
  as [[e [_ Hres]] | [[e [_ [Hget _]]] | [out [_ [Hget Hres]]]]].
- rewrite Hres in Hok. discriminate.
- discriminate.
- subst p'. rewrite Hres in Hok |- *. cbn [fst snd] in Hok |- *.
  injection Hok as <-. injection Hget as Hget.
  assert (Hrin : ReserveLedger.reserveIn
                   (ReserveLedger.commit priceQ blend p t
                      (if side
                       then ReserveLedger.reserveIn p side + amountIn
                       else ReserveLedger.reserveOut p side - out)
                      (if side
                       then ReserveLedger.reserveOut p side - out
                       else ReserveLedger.reserveIn p side + amountIn)
                      (totalSupply p)) side
                 = ReserveLedger.reserveIn p side + amountIn)
    by (destruct side; reflexivity).
  assert (Hrout : ReserveLedger.reserveOut
                    (ReserveLedger.commit priceQ blend p t
                       (if side
                        then ReserveLedger.reserveIn p side + amountIn
                        else ReserveLedger.reserveOut p side - out)
                       (if side
                        then ReserveLedger.reserveOut p side - out
                        else ReserveLedger.reserveIn p side + amountIn)
                       (totalSupply p)) side
                  = ReserveLedger.reserveOut p side - out)
    by (destruct side; reflexivity).
  rewrite Hrin, Hrout.
  split; [symmetry; exact Hget|]. split; [reflexivity|].
  split; [reflexivity|].
  rewrite <- Hget. apply product_grows; assumption.
Qed.

(** With positive reserves, a positive input, a fee of 0 to 10000 basis
    points and a positive estimate the swap goes through, in every order of
    the checks. *)
Example applySwap_sample_succeeds :
  map (fun order =>
         snd (ReserveLedger.applySwap PriceOracle.uqPrice
                (DynamicFeeEngine.emaBlend 10000) order samplePair
                sampleTick 1000000 true 30))
      ReserveLedger.checkOrders
  = [Ok 996900; Ok 996900; Ok 996900; Ok 996900; Ok 996900; Ok 996900].
Proof. vm_compute. reflexivity. Qed.

(** ** The liquidity engine *)

Lemma quoteAddLiquidity_first_deposit (minimumLiquidity : Z) (p : Pair)
      (aIsToken0 : bool) (amountADesired amountBDesired : Z) :
  totalSupply p = 0 ->
  LiquidityEngine.quoteAddLiquidity minimumLiquidity p aIsToken0
    amountADesired amountBDesired
  = if Z.sqrt (amountADesired * amountBDesired) <? minimumLiquidity
    then Err InsufficientInitialLiquidity
    else Ok (LiquidityEngine.mkLiquidityQuote amountADesired amountBDesired
               (Z.sqrt (amountADesired * amountBDesired))).
Proof.
intros Hsupply. unfold LiquidityEngine.quoteAddLiquidity.
rewrite Hsupply. reflexivity.
Qed.

(** C5.  On an uninitialized pool (totalSupply = 0) [quoteAddLiquidity]
    quotes estimatedLPTokens = floor(sqrt(amountA * amountB)), on the two
    amounts the caller supplies, as soon as that root reaches the
    first-deposit floor; a first deposit of (1_000_0000, 4_000_0000) is
    quoted 20_000_000 LP tokens. *)
Theorem first_deposit_lp_is_sqrt :
  forall (minimumLiquidity : Z) (p : Pair) (aIsToken0 : bool),
    totalSupply p = 0 ->
    (forall amountADesired amountBDesired : Z,
        let root := Z.sqrt (amountADesired * amountBDesired) in
        (0 <= amountADesired * amountBDesired ->
         root * root <= amountADesired * amountBDesired
                     < (root + 1) * (root + 1))
        /\ (forall q : LiquidityEngine.LiquidityQuote,
               LiquidityEngine.quoteAddLiquidity minimumLiquidity p aIsToken0
                 amountADesired amountBDesired = Ok q ->
               LiquidityEngine.estimatedLPTokens q = root)
        /\ (minimumLiquidity <= root ->
            LiquidityEngine.quoteAddLiquidity minimumLiquidity p aIsToken0
              amountADesired amountBDesired
            = Ok (LiquidityEngine.mkLiquidityQuote
                    amountADesired amountBDesired root)))
    /\ (minimumLiquidity <= 20000000 ->
        LiquidityEngine.quoteAddLiquidity minimumLiquidity p aIsToken0
          10000000 40000000
        = Ok (LiquidityEngine.mkLiquidityQuote 10000000 40000000 20000000)).
Proof.
intros minimumLiquidity p aIsToken0 Hsupply.
assert (Hquote : forall a b : Z,
           minimumLiquidity <= Z.sqrt (a * b) ->
           LiquidityEngine.quoteAddLiquidity minimumLiquidity p aIsToken0 a b
           = Ok (LiquidityEngine.mkLiquidityQuote a b (Z.sqrt (a * b)))).
{ intros a b Hfloor.
  rewrite quoteAddLiquidity_first_deposit by assumption.
  destruct (Z.ltb_spec (Z.sqrt (a * b)) minimumLiquidity); [lia | reflexivity]. }
split.
- intros a b root. split; [|split].
  + intros Hnonneg. subst root.
    pose proof (Z.sqrt_spec (a * b) Hnonneg) as Hspec.
    unfold Z.succ in Hspec. lia.
  + intros q.
    rewrite quoteAddLiquidity_first_deposit by assumption. fold root.
    destruct (root <? minimumLiquidity); [discriminate|].
    intros Hq. injection Hq as <-. reflexivity.
  + apply Hquote.
- intros Hfloor.
  rewrite quoteAddLiquidity_first_deposit by assumption.
  change (Z.sqrt (10000000 * 40000000)) with 20000000.
  destruct (Z.ltb_spec 20000000 minimumLiquidity); [lia | reflexivity].
Qed.

Lemma first_deposit_lp_is_sqrt_witness :
  LiquidityEngine.quoteAddLiquidity 1000 emptyPair true 10000000 40000000
  = Ok (LiquidityEngine.mkLiquidityQuote 10000000 40000000 20000000).
Proof.
apply (proj2 (first_deposit_lp_is_sqrt 1000 emptyPair true eq_refl)).
lia.
Defined.

(** * Further properties of the scripts' arithmetic *)

(** ** The swap output estimate, beyond the claims *)

Module EstimateFacts.

Lemma div_le_cross (x y x' y' : Z) :
  0 < y -> 0 < y' -> x * y' <= x' * y -> x / y <= x' / y'.
Proof.
intros Hy Hy' Hcross.
apply ZFacts.div_le_of_mul_le; [assumption|].
pose proof (ZFacts.div_mul_le x y Hy) as Hq.
assert (Hscaled : x / y * y' * y <= x' * y) by nia.
nia.
Qed.

Lemma floor_form (amountIn reserve0 reserve1 feeBps : Z) :
  0 < reserve0 -> 0 <= reserve1 -> 0 <= feeBps <= 10000 -> 0 <= amountIn ->
  0 <= amountIn * (10000 - feeBps) * reserve1
  /\ 0 < reserve0 * 10000 + amountIn * (10000 - feeBps)
  /\ estimatedOut amountIn reserve0 reserve1 feeBps
     = amountIn * (10000 - feeBps) * reserve1
       / (reserve0 * 10000 + amountIn * (10000 - feeBps)).
Proof.
intros H0 H1 Hfee Hamt.
assert (Hfeed : 0 <= amountIn * (10000 - feeBps)) by nia.
assert (Hnum : 0 <= amountIn * (10000 - feeBps) * reserve1) by nia.
assert (Hden : 0 < reserve0 * 10000 + amountIn * (10000 - feeBps)) by lia.
repeat split; try assumption.
unfold estimatedOut. apply ZFacts.quot_is_floor; assumption.
Qed.

End EstimateFacts.

(** X1.  The estimate never reaches the output reserve: with positive
    reserves, a non-negative input and a fee of 0 to 10000 basis points the
    script estimates an output that is at least 0 and strictly below
    reserve1, however large the input. *)
Theorem estimate_below_output_reserve :
  forall amountIn reserve0 reserve1 dynamicFee : Z,
    0 < reserve0 -> 0 < reserve1 -> 0 <= dynamicFee <= 10000 ->
    0 <= amountIn ->
    exists out : Z,
      estimateSwapOutput amountIn reserve0 reserve1 dynamicFee = Some out
      /\ 0 <= out < reserve1.
Proof.
intros amountIn reserve0 reserve1 fee H0 H1 Hfee Hamt.
exists (estimatedOut amountIn reserve0 reserve1 fee).
split; [apply estimateSwapOutput_some; assumption|].
destruct (EstimateFacts.floor_form amountIn reserve0 reserve1 fee)
  as [Hnum [Hden ->]]; try lia.
split.
- apply Z.div_pos; assumption.
- apply Z.div_lt_upper_bound; [assumption|]. nia.
Qed.

Lemma estimate_below_output_reserve_witness :
  exists out : Z,
    estimateSwapOutput (10 ^ 30) 10000000000 10000000000 30 = Some out
    /\ 0 <= out < 10000000000.
Proof.
apply (estimate_below_output_reserve (10 ^ 30) 10000000000 10000000000 30);
  lia.
Defined.

(** X2.  The estimate is monotone in the input: with positive reserves and a
    fee of 0 to 10000 basis points, a larger input never gets a smaller
    estimated output. *)
Theorem estimate_monotone_in_input :
  forall amountIn amountIn' reserve0 reserve1 dynamicFee : Z,
    0 < reserve0 -> 0 < reserve1 -> 0 <= dynamicFee <= 10000 ->
    0 <= amountIn <= amountIn' ->
    estimatedOut amountIn reserve0 reserve1 dynamicFee
    <= estimatedOut amountIn' reserve0 reserve1 dynamicFee.
Proof.
intros a a' r0 r1 fee H0 H1 Hfee Ha.
destruct (EstimateFacts.floor_form a r0 r1 fee) as [_ [Hden ->]]; try lia.
destruct (EstimateFacts.floor_form a' r0 r1 fee) as [_ [Hden' ->]]; try lia.
apply EstimateFacts.div_le_cross; try assumption.
set (g := 10000 - fee) in *.
assert (Hg : 0 <= g) by (subst g; lia).
assert (Hbase : a * g * r1 * (r0 * 10000) <= a' * g * r1 * (r0 * 10000)).
{ apply Z.mul_le_mono_nonneg_r; [lia|].
  apply Z.mul_le_mono_nonneg_r; [lia|].
  apply Z.mul_le_mono_nonneg_r; lia. }
assert (Hsame : a * g * r1 * (a' * g) = a' * g * r1 * (a * g)) by ring.
lia.
Qed.

Lemma estimate_monotone_in_input_witness :
  estimatedOut 1000000 10000000000 10000000000 30
  <= estimatedOut 2000000 10000000000 10000000000 30.
Proof.
apply (estimate_monotone_in_input 1000000 2000000 10000000000 10000000000 30);
  lia.
Defined.

(** X3.  The estimate is antitone in the fee: with positive reserves and a
    non-negative input, raising the dynamic fee within 0 to 10000 basis
    points never raises the estimated output. *)
Theorem estimate_antitone_in_fee :
  forall amountIn reserve0 reserve1 dynamicFee dynamicFee' : Z,
    0 < reserve0 -> 0 < reserve1 -> 0 <= amountIn ->
    0 <= dynamicFee <= dynamicFee' -> dynamicFee' <= 10000 ->
    estimatedOut amountIn reserve0 reserve1 dynamicFee'
    <= estimatedOut amountIn reserve0 reserve1 dynamicFee.
Proof.
intros a r0 r1 fee fee' H0 H1 Ha Hfee Hfee'.
destruct (EstimateFacts.floor_form a r0 r1 fee) as [_ [Hden ->]]; try lia.
destruct (EstimateFacts.floor_form a r0 r1 fee') as [_ [Hden' ->]]; try lia.
apply EstimateFacts.div_le_cross; try assumption.
set (g := 10000 - fee) in *. set (g' := 10000 - fee') in *.
assert (Hg : 0 <= g' <= g) by (subst g g'; lia).
assert (Hbase : a * g' * r1 * (r0 * 10000) <= a * g * r1 * (r0 * 10000)).
{ apply Z.mul_le_mono_nonneg_r; [lia|].
  apply Z.mul_le_mono_nonneg_r; [lia|].
  apply Z.mul_le_mono_nonneg_l; lia. }
assert (Hsame : a * g' * r1 * (a * g) = a * g * r1 * (a * g')) by ring.
lia.
Qed.

Lemma estimate_antitone_in_fee_witness :
  estimatedOut 1000000 10000000000 10000000000 100
  <= estimatedOut 1000000 10000000000 10000000000 30.
Proof.
apply (estimate_antitone_in_fee 1000000 10000000000 10000000000 30 100); lia.
Defined.

(** X4.  At the ends of the fee range: with a fee of 0 the estimate is the
    plain constant-product output floor(amountIn * reserve1 /
    (reserve0 + amountIn)), and with a fee of 10000 basis points it is 0. *)
Theorem estimate_at_fee_extremes :
  forall amountIn reserve0 reserve1 : Z,
    0 < reserve0 -> 0 < reserve1 -> 0 <= amountIn ->
    estimateSwapOutput amountIn reserve0 reserve1 0
    = Some (amountIn * reserve1 / (reserve0 + amountIn))
    /\ estimateSwapOutput amountIn reserve0 reserve1 10000 = Some 0.
Proof.
intros a r0 r1 H0 H1 Ha.
rewrite !estimateSwapOutput_some by assumption.
split; f_equal.
- destruct (EstimateFacts.floor_form a r0 r1 0) as [_ [_ ->]]; try lia.
  replace (a * (10000 - 0) * r1) with (a * r1 * 10000) by ring.
  replace (r0 * 10000 + a * (10000 - 0)) with ((r0 + a) * 10000) by ring.
  apply Z.div_mul_cancel_r; lia.
- destruct (EstimateFacts.floor_form a r0 r1 10000) as [_ [_ ->]]; try lia.
  replace (a * (10000 - 10000) * r1) with 0 by ring.
  apply Z.div_0_l. lia.
Qed.

Lemma estimate_at_fee_extremes_witness :
  estimateSwapOutput 1000000 10000000000 10000000000 0
  = Some (1000000 * 10000000000 / (10000000000 + 1000000))
  /\ estimateSwapOutput 1000000 10000000000 10000000000 10000 = Some 0.
Proof.
apply (estimate_at_fee_extremes 1000000 10000000000 10000000000); lia.
Defined.

(** X5.  Dust inputs: with positive reserves, a non-negative input and a fee
    of 0 to 10000 basis points the estimate is 0 exactly when
    amountIn * (10000 - fee) * (reserve1 - 1) < reserve0 * 10000. *)
Theorem estimate_zero_iff_dust :
  forall amountIn reserve0 reserve1 dynamicFee : Z,
    0 < reserve0 -> 0 < reserve1 -> 0 <= dynamicFee <= 10000 ->
    0 <= amountIn ->
    (estimatedOut amountIn reserve0 reserve1 dynamicFee = 0
     <-> amountIn * (10000 - dynamicFee) * (reserve1 - 1) < reserve0 * 10000).
Proof.
intros a r0 r1 fee H0 H1 Hfee Ha.
destruct (EstimateFacts.floor_form a r0 r1 fee) as [Hnum [Hden ->]]; try lia.
rewrite Z.div_small_iff by lia.
split.
- intros [Hsmall | Hneg]; [|lia].
  destruct Hsmall as [_ Hlt].
  replace (a * (10000 - fee) * (r1 - 1))
    with (a * (10000 - fee) * r1 - a * (10000 - fee)) by ring.
  lia.
- intros Hdust. left. split; [assumption|].
  replace (a * (10000 - fee) * (r1 - 1))
    with (a * (10000 - fee) * r1 - a * (10000 - fee)) in Hdust by ring.
  lia.
Qed.

Lemma estimate_zero_iff_dust_witness :
  estimatedOut 1 10000000000 10000000000 30 = 0
  <-> 1 * (10000 - 30) * (10000000000 - 1) < 10000000000 * 10000.
Proof.
apply (estimate_zero_iff_dust 1 10000000000 10000000000 30); lia.
Defined.

(** ** Price impact, beyond the claims *)

Lemma impactBps_positive_ideal (amountIn amountOut reserveIn reserveOut : Z) :
  0 < reserveIn -> 0 < reserveOut -> reserveIn <= amountIn * reserveOut ->
  0 < amountIn * reserveOut / reserveIn
  /\ impactBps amountIn amountOut reserveIn reserveOut
     = Z.quot ((amountIn * reserveOut / reserveIn - amountOut) * 10000)
              (amountIn * reserveOut / reserveIn).
Proof.
intros Hin Hout Hideal.
assert (Hpos : 0 < amountIn * reserveOut / reserveIn).
{ apply Z.div_str_pos. lia. }
split; [exact Hpos|].
rewrite impactBps_unfold by lia.
rewrite (ZFacts.quot_is_floor (amountIn * reserveOut) reserveIn) by lia.
reflexivity.
Qed.

(** X6.  The reported impact is antitone in the output: for a given input
    and positive reserves whose ideal output is at least 1, a larger
    amountOut never reports a larger price impact, in basis points or in
    percent. *)
Theorem price_impact_antitone_in_output :
  forall amountIn amountOut amountOut' reserveIn reserveOut : Z,
    0 < reserveIn -> 0 < reserveOut -> reserveIn <= amountIn * reserveOut ->
    amountOut <= amountOut' ->
    impactBps amountIn amountOut' reserveIn reserveOut
    <= impactBps amountIn amountOut reserveIn reserveOut
    /\ (calculatePriceImpact amountIn amountOut' reserveIn reserveOut
        <= calculatePriceImpact amountIn amountOut reserveIn reserveOut)%Q.
Proof.
intros a o o' rIn rOut Hin Hout Hideal Hle.
assert (Hbps : impactBps a o' rIn rOut <= impactBps a o rIn rOut).
{ destruct (impactBps_positive_ideal a o rIn rOut Hin Hout Hideal)
    as [Hpos ->].
  destruct (impactBps_positive_ideal a o' rIn rOut Hin Hout Hideal)
    as [_ ->].
  apply Z.quot_le_mono; [exact Hpos|]. nia. }
split; [exact Hbps|].
rewrite !calculatePriceImpact_of_bps.
unfold Qle, Qdiv, Qmult, Qinv, inject_Z; simpl. lia.
Qed.

Lemma price_impact_antitone_in_output_witness :
  impactBps 1000000 996900 10000000000 10000000000
  <= impactBps 1000000 990000 10000000000 10000000000
  /\ (calculatePriceImpact 1000000 996900 10000000000 10000000000
      <= calculatePriceImpact 1000000 990000 10000000000 10000000000)%Q.
Proof.
apply (price_impact_antitone_in_output
         1000000 990000 996900 10000000000 10000000000); lia.
Defined.

(** X7.  The reported impact contains the fee: for the script's own
    estimate, with positive reserves, a positive input and a fee of 0 to
    10000 basis points, the impact is at least feeBps - 1 basis points as
    soon as the ideal output is at least 1 and at least 10000 - feeBps
    units. *)
Theorem price_impact_at_least_fee :
  forall amountIn reserveIn reserveOut feeBps : Z,
    0 < reserveIn -> 0 < reserveOut -> 0 < amountIn ->
    0 <= feeBps <= 10000 ->
    1 <= amountIn * reserveOut / reserveIn ->
    10000 - feeBps <= amountIn * reserveOut / reserveIn ->
    feeBps - 1
    <= impactBps amountIn
         (estimatedOut amountIn reserveIn reserveOut feeBps)
         reserveIn reserveOut.
Proof.
intros a rIn rOut fee Hin Hout Ha Hfee Hideal Hdeep.
assert (Hidealge : rIn <= a * rOut).
{ pose proof (ZFacts.div_mul_le (a * rOut) rIn Hin). nia. }
destruct (impactBps_positive_ideal a (estimatedOut a rIn rOut fee)
            rIn rOut Hin Hout Hidealge) as [_ ->].
assert (Hfloor : estimatedOut a rIn rOut fee
                 * (rIn * 10000 + a * (10000 - fee))
                 <= a * (10000 - fee) * rOut)
  by (apply estimatedOut_mul_denominator; assumption).
assert (Hnonneg : 0 <= estimatedOut a rIn rOut fee)
  by (apply estimatedOut_nonneg; assumption).
assert (Hle : estimatedOut a rIn rOut fee <= a * rOut / rIn)
  by (apply estimatedOut_le_ideal; assumption).
assert (Hrem : a * rOut < (a * rOut / rIn + 1) * rIn).
{ pose proof (Z.mul_succ_div_gt (a * rOut) rIn Hin). lia. }
set (ideal := a * rOut / rIn) in *.
set (out := estimatedOut a rIn rOut fee) in *.
set (g := 10000 - fee) in *.
assert (Hg : 0 <= g <= ideal) by (subst g; lia).
rewrite ZFacts.quot_is_floor by nia.
apply ZFacts.div_le_of_mul_le; [lia|].
assert (Hbound : out * 10000 <= g * (ideal + 1)).
{ assert (Hscaled : out * 10000 * rIn <= g * (ideal + 1) * rIn).
  { assert (H1 : out * 10000 * rIn <= a * g * rOut) by nia.
    assert (H2 : g * (a * rOut) <= g * ((ideal + 1) * rIn))
      by (apply Z.mul_le_mono_nonneg_l; lia).
    lia. }
  nia. }
replace (fee - 1) with (10000 - g - 1) by (subst g; lia).
nia.
Qed.

Lemma price_impact_at_least_fee_witness :
  30 - 1
  <= impactBps 1000000 (estimatedOut 1000000 10000000000 10000000000 30)
       10000000000 10000000000.
Proof.
apply (price_impact_at_least_fee 1000000 10000000000 10000000000 30);
  try lia; vm_compute; discriminate.
Defined.

Example price_impact_of_sample_estimate :
  impactBps 1000000 (estimatedOut 1000000 10000000000 10000000000 30)
    10000000000 10000000000 = 31.
Proof. vm_compute. reflexivity. Qed.

(** Without the depth condition rounding can hide the fee altogether. *)
Example price_impact_hidden_by_rounding :
  estimatedOut 199 100000000 1000000 30 = 1
  /\ impactBps 199 1 100000000 1000000 = 0.
Proof. vm_compute. split; reflexivity. Qed.

(** X8.  The ends of the scale: with positive reserves and an ideal output
    of at least 1, an output equal to the ideal one reports an impact of 0
    and an output of 0 reports 10000 basis points, that is 100 percent. *)
Theorem price_impact_extremes :
  forall amountIn reserveIn reserveOut : Z,
    0 < reserveIn -> 0 < reserveOut -> reserveIn <= amountIn * reserveOut ->
    impactBps amountIn (amountIn * reserveOut / reserveIn) reserveIn reserveOut
    = 0
    /\ impactBps amountIn 0 reserveIn reserveOut = 10000
    /\ (calculatePriceImpact amountIn 0 reserveIn reserveOut == 100)%Q.
Proof.
intros a rIn rOut Hin Hout Hideal.
assert (Hfull : impactBps a 0 rIn rOut = 10000).
{ destruct (impactBps_positive_ideal a 0 rIn rOut Hin Hout Hideal)
    as [Hpos ->].
  rewrite Z.sub_0_r, Z.mul_comm. apply Z.quot_mul. lia. }
split; [|split].
- destruct (impactBps_positive_ideal a (a * rOut / rIn) rIn rOut
              Hin Hout Hideal) as [Hpos ->].
  rewrite Z.sub_diag. apply Z.quot_0_l. lia.
- exact Hfull.
- rewrite calculatePriceImpact_of_bps, Hfull. reflexivity.
Qed.

Lemma price_impact_extremes_witness :
  impactBps 1000000 (1000000 * 10000000000 / 10000000000)
    10000000000 10000000000 = 0
  /\ impactBps 1000000 0 10000000000 10000000000 = 10000
  /\ (calculatePriceImpact 1000000 0 10000000000 10000000000 == 100)%Q.
Proof.
apply (price_impact_extremes 1000000 10000000000 10000000000); lia.
Defined.

(** ** The slippage minimum, beyond the claims *)

(** X9.  The minimum is monotone in the quoted amount, for any tolerance of
    at most 10000 basis points, and antitone in the tolerance for a
    non-negative amount: a larger quote never gets a smaller minimum, and a
    wider tolerance never a larger one. *)
Theorem amountMin_monotone :
  forall amount amount' slippage slippage' : Z,
    amount <= amount' -> slippage <= slippage' -> slippage' <= 10000 ->
    amountMin amount slippage <= amountMin amount' slippage
    /\ (0 <= amount ->
        amountMin amount slippage' <= amountMin amount slippage).
Proof.
intros a a' s s' Ha Hs Hs'.
unfold amountMin. split.
- apply Z.quot_le_mono; [lia|].
  apply Z.mul_le_mono_nonneg_r; lia.
- intros Hnonneg.
  apply Z.quot_le_mono; [lia|].
  apply Z.mul_le_mono_nonneg_l; lia.
Qed.

Lemma amountMin_monotone_witness :
  amountMin 1000000000 100 <= amountMin 2000000000 100
  /\ (0 <= 1000000000 -> amountMin 1000000000 500 <= amountMin 1000000000 100).
Proof.
apply (amountMin_monotone 1000000000 2000000000 100 500); lia.
Defined.

(** X10.  What the minimum gives away: for a non-negative amount and a
    tolerance of 0 to 10000 basis points the shortfall amount - minimum is
    the tolerated fraction amount * slippage / 10000 rounded up, so it
    covers that fraction and exceeds it by less than one unit; with the
    script's 100 basis points the minimum is floor(amount * 99 / 100). *)
Theorem amountMin_shortfall :
  forall amount slippage : Z,
    0 <= amount -> 0 <= slippage <= 10000 ->
    0 <= amountMin amount slippage
    /\ amount * slippage <= (amount - amountMin amount slippage) * 10000
       < amount * slippage + 10000
    /\ amountMin amount slippageBps = amount * 99 / 100.
Proof.
intros a s Ha Hs.
assert (Hscript : amountMin a slippageBps = a * 99 / 100).
{ rewrite amountMin_floor by (unfold slippageBps; lia).
  unfold slippageBps.
  replace (a * (10000 - 100)) with (a * 99 * 100) by ring.
  change 10000 with (100 * 100).
  apply Z.div_mul_cancel_r; lia. }
rewrite amountMin_floor by lia.
set (m := a * (10000 - s) / 10000).
assert (Hlo : m * 10000 <= a * (10000 - s)).
{ apply ZFacts.div_mul_le. lia. }
assert (Hhi : a * (10000 - s) < (m + 1) * 10000).
{ subst m. pose proof (Z.mul_succ_div_gt (a * (10000 - s)) 10000). lia. }
split; [|split].
- subst m. apply Z.div_pos; nia.
- lia.
- exact Hscript.
Qed.

Lemma amountMin_shortfall_witness :
  0 <= amountMin 1234567 100
  /\ 1234567 * 100 <= (1234567 - amountMin 1234567 100) * 10000
     < 1234567 * 100 + 10000
  /\ amountMin 1234567 slippageBps = 1234567 * 99 / 100.
Proof.
apply (amountMin_shortfall 1234567 100); lia.
Defined.

(** ** formatReserve *)

Module StringFacts.

Lemma length_append (a b : string) :
  String.length (a ++ b) = (String.length a + String.length b)%nat.
Proof.
induction a as [|c a IH]; cbn [String.append String.length].
- reflexivity.
- rewrite IH. reflexivity.
Qed.

Lemma append_inj_tail (a b x y : string) :
  (a ++ x)%string = (b ++ y)%string -> String.length x = String.length y ->
  a = b /\ x = y.
Proof.
revert b. induction a as [|c a IH]; intros [|c' b] Heq Hlen;
  cbn [String.append] in Heq.
- split; [reflexivity | exact Heq].
- apply (f_equal String.length) in Heq.
  cbn [String.length] in Heq. rewrite length_append in Heq. lia.
- apply (f_equal String.length) in Heq.
  cbn [String.length] in Heq. rewrite length_append in Heq. lia.
- injection Heq as Hc Hrest.
  destruct (IH b Hrest Hlen) as [-> ->]. subst c'. split; reflexivity.
Qed.

Lemma length_zeros (n : nat) : String.length (zeros n) = n.
Proof. induction n as [|n IH]; cbn; congruence. Qed.

Lemma length_string_of_uint (d : uint) :
  String.length (NilEmpty.string_of_uint d) = nb_digits d.
Proof. induction d; cbn; congruence. Qed.

Lemma zeros_string_of_uint (k : nat) (d : uint) :
  (zeros k ++ NilEmpty.string_of_uint d)%string
  = NilEmpty.string_of_uint (Nat.iter k D0 d).
Proof.
induction k as [|k IH]; cbn [zeros String.append Nat.iter nat_rect].
- reflexivity.
- rewrite IH. reflexivity.
Qed.

End StringFacts.

Module DigitFacts.

Lemma of_uint_acc_lower (d : uint) :
  forall acc : positive,
    Z.pos acc * 10 ^ Z.of_nat (nb_digits d) <= Z.pos (Pos.of_uint_acc d acc).
Proof.
induction d as [|d IH|d IH|d IH|d IH|d IH|d IH|d IH|d IH|d IH|d IH];
  intros acc; cbn [Pos.of_uint_acc nb_digits];
  try (rewrite Nat2Z.inj_succ, Z.pow_succ_r by lia;
       eapply Z.le_trans; [|apply IH];
       pose proof (Z.pow_pos_nonneg 10 (Z.of_nat (nb_digits d)));
       nia).
cbn. lia.
Qed.

Lemma nonzero_head_lower (d : uint) (p : positive) :
  nzhead d = d -> Pos.of_uint d = N.pos p ->
  10 ^ Z.of_nat (nb_digits d) <= 10 * Z.pos p.
Proof.
intros Hhead Hval.
destruct d as [|d|d|d|d|d|d|d|d|d|d];
  cbn [Pos.of_uint] in Hval; try discriminate;
  try (injection Hval as <-;
       cbn [nb_digits]; rewrite Nat2Z.inj_succ, Z.pow_succ_r by lia;
       match goal with
       | |- _ <= 10 * Z.pos (Pos.of_uint_acc _ ?k) =>
           pose proof (of_uint_acc_lower d k)
       end;
       pose proof (Z.pow_pos_nonneg 10 (Z.of_nat (nb_digits d)));
       nia).
exfalso. apply (nzhead_nonzero (D0 d) d). exact Hhead.
Qed.

Lemma to_uint_nzhead (p : positive) :
  nzhead (Pos.to_uint p) = Pos.to_uint p.
Proof.
pose proof (DecimalPos.Unsigned.to_of (Pos.to_uint p)) as Hnorm.
rewrite DecimalPos.Unsigned.of_to in Hnorm. cbn [N.to_uint] in Hnorm.
destruct (nzhead (Pos.to_uint p)) eqn:Hhead;
  try (rewrite unorm_nzhead in Hnorm by (rewrite Hhead; discriminate);
       rewrite Hhead in Hnorm; symmetry; exact Hnorm).
exfalso. apply (DecimalPos.Unsigned.to_uint_nonzero p).
rewrite Hnorm. apply unorm_0. exact Hhead.
Qed.

Lemma pos_digits_bound (p : positive) (k : nat) :
  Z.pos p < 10 ^ Z.of_nat k -> (nb_digits (Pos.to_uint p) <= k)%nat.
Proof.
intros Hlt.
pose proof (nonzero_head_lower (Pos.to_uint p) p (to_uint_nzhead p)
              (DecimalPos.Unsigned.of_to p)) as Hlow.
destruct (Nat.le_gt_cases (nb_digits (Pos.to_uint p)) k) as [Hle | Hgt];
  [exact Hle | exfalso].
assert (Hpow : 10 ^ Z.of_nat (S k) <= 10 ^ Z.of_nat (nb_digits (Pos.to_uint p))).
{ apply Z.pow_le_mono_r; lia. }
rewrite Nat2Z.inj_succ, Z.pow_succ_r in Hpow by lia.
lia.
Qed.

End DigitFacts.

Module FormatFacts.

Lemma toString_nonneg (z : Z) :
  0 <= z ->
  N.to_uint (Z.to_N z) <> Nil
  /\ bigintToString z = NilEmpty.string_of_uint (N.to_uint (Z.to_N z)).
Proof.
intros Hz. destruct z as [|p|p]; [| |lia].
- split; [discriminate | reflexivity].
- pose proof (DecimalPos.Unsigned.to_uint_nonnil p) as Hnil.
  split; [exact Hnil|].
  unfold bigintToString. cbn [Z.to_int NilZero.string_of_int Z.to_N N.to_uint].
  unfold NilZero.string_of_uint.
  destruct (Pos.to_uint p); [contradiction|reflexivity..].
Qed.

Lemma length_toString (z : Z) (k : nat) :
  0 <= z < 10 ^ Z.of_nat k -> (1 <= k)%nat ->
  (String.length (bigintToString z) <= k)%nat.
Proof.
intros [Hz Hlt] Hk.
destruct (toString_nonneg z Hz) as [_ ->].
rewrite StringFacts.length_string_of_uint.
destruct z as [|p|p]; [| |lia].
- cbn. exact Hk.
- cbn [Z.to_N N.to_uint]. apply DigitFacts.pos_digits_bound. exact Hlt.
Qed.

Lemma of_uint_iter_D0 (k : nat) (d : uint) :
  Pos.of_uint (Nat.iter k D0 d) = Pos.of_uint d.
Proof. induction k as [|k IH]; [reflexivity | exact IH]. Qed.

Lemma iter_D0_nonnil (k : nat) (d : uint) : d <> Nil -> Nat.iter k D0 d <> Nil.
Proof. intros Hd. destruct k; [exact Hd | discriminate]. Qed.

(** Reading back zero-padded digits, as [BigInt(text)] would. *)
Lemma parse_padded (z : Z) (k : nat) :
  0 <= z ->
  option_map Z.of_int
    (NilZero.int_of_string (zeros k ++ bigintToString z)%string)
  = Some z.
Proof.
intros Hz.
destruct (toString_nonneg z Hz) as [Hnil ->].
rewrite StringFacts.zeros_string_of_uint.
set (d := Nat.iter k D0 (N.to_uint (Z.to_N z))).
assert (Hd : d <> Nil) by (apply iter_D0_nonnil; exact Hnil).
replace (NilEmpty.string_of_uint d) with (NilZero.string_of_int (Pos d))
  by (destruct d; [contradiction | reflexivity..]).
rewrite NilZero.isi by congruence.
cbn [option_map Z.of_int]. unfold Z.of_uint. subst d.
rewrite of_uint_iter_D0.
change (Pos.of_uint (N.to_uint (Z.to_N z)))
  with (N.of_uint (N.to_uint (Z.to_N z))).
rewrite DecimalN.Unsigned.of_to. rewrite Z2N.id by exact Hz. reflexivity.
Qed.

Lemma formatReserve_parts (value : Z) :
  0 <= value ->
  let integerStr := bigintToString (value / 10000000) in
  let fractionalStr := padStart (bigintToString (value mod 10000000)) 7 in
  formatReserve value = (integerStr ++ "." ++ fractionalStr)%string
  /\ String.length fractionalStr = 7%nat
  /\ option_map Z.of_int (NilZero.int_of_string integerStr)
     = Some (value / 10000000)
  /\ option_map Z.of_int (NilZero.int_of_string fractionalStr)
     = Some (value mod 10000000).
Proof.
intros Hv integerStr fractionalStr.
assert (Hq : Z.quot value 10000000 = value / 10000000)
  by (apply Z.quot_div_nonneg; lia).
assert (Hr : Z.rem value 10000000 = value mod 10000000)
  by (apply Z.rem_mod_nonneg; lia).
assert (Hrange : 0 <= value mod 10000000 < 10000000)
  by (apply Z.mod_pos_bound; lia).
assert (Hquot : 0 <= value / 10000000) by (apply Z.div_pos; lia).
assert (Hlen : (String.length (bigintToString (value mod 10000000)) <= 7)%nat)
  by (apply length_toString; [exact Hrange | lia]).
split; [|split; [|split]].
- unfold formatReserve. cbv zeta.
  change (10 ^ Z.of_nat 7) with 10000000.
  rewrite Hq, Hr. reflexivity.
- subst fractionalStr. unfold padStart.
  rewrite StringFacts.length_append, StringFacts.length_zeros. lia.
- subst integerStr. apply (parse_padded (value / 10000000) 0 Hquot).
- subst fractionalStr. unfold padStart. apply parse_padded. lia.
Qed.

End FormatFacts.

(** X11.  The text of a non-negative reserve reads back as the reserve:
    [formatReserve] yields the decimal digits of value / 10^7, a dot, and
    the decimal digits of value mod 10^7 padded with zeros in front to
    exactly 7 characters; parsed as decimal integers the two parts give
    value / 10^7 and value mod 10^7. *)
Theorem formatReserve_reads_back :
  forall value : Z,
    0 <= value ->
    let integerStr := bigintToString (value / 10000000) in
    let fractionalStr := padStart (bigintToString (value mod 10000000)) 7 in
    formatReserve value = (integerStr ++ "." ++ fractionalStr)%string
    /\ String.length fractionalStr = 7%nat
    /\ option_map Z.of_int (NilZero.int_of_string integerStr)
       = Some (value / 10000000)
    /\ option_map Z.of_int (NilZero.int_of_string fractionalStr)
       = Some (value mod 10000000).
Proof.
intros value Hv.
apply FormatFacts.formatReserve_parts. exact Hv.
Qed.

Lemma formatReserve_reads_back_witness :
  formatReserve 12345678
  = (bigintToString (12345678 / 10000000) ++ "."
     ++ padStart (bigintToString (12345678 mod 10000000)) 7)%string
  /\ String.length (padStart (bigintToString (12345678 mod 10000000)) 7)
     = 7%nat
  /\ option_map Z.of_int
       (NilZero.int_of_string (bigintToString (12345678 / 10000000)))
     = Some (12345678 / 10000000)
  /\ option_map Z.of_int
       (NilZero.int_of_string
          (padStart (bigintToString (12345678 mod 10000000)) 7))
     = Some (12345678 mod 10000000).
Proof.
apply (formatReserve_reads_back 12345678). lia.
Defined.

Example formatReserve_samples :
  formatReserve 10000000000 = "1000.0000000"%string
  /\ formatReserve 12345678 = "1.2345678"%string
  /\ formatReserve 42 = "0.0000042"%string
  /\ formatReserve 0 = "0.0000000"%string.
Proof. vm_compute. repeat split. Qed.

(** X12.  Two different non-negative reserves are never shown as the same
    text: [formatReserve] is injective on non-negative values. *)
Theorem formatReserve_injective :
  forall value value' : Z,
    0 <= value -> 0 <= value' ->
    formatReserve value = formatReserve value' -> value = value'.
Proof.
intros v v' Hv Hv' Heq.
destruct (FormatFacts.formatReserve_parts v Hv) as [Hfmt [Hlen [Hint Hfrac]]].
destruct (FormatFacts.formatReserve_parts v' Hv')
  as [Hfmt' [Hlen' [Hint' Hfrac']]].
cbv zeta in *.
rewrite Hfmt, Hfmt' in Heq.
apply StringFacts.append_inj_tail in Heq.
- destruct Heq as [Hi Hf].
  injection Hf as Hf.
  rewrite Hi in Hint. rewrite Hf in Hfrac.
  assert (Hq : v / 10000000 = v' / 10000000) by congruence.
  assert (Hr : v mod 10000000 = v' mod 10000000) by congruence.
  rewrite (Z.div_mod v 10000000), (Z.div_mod v' 10000000) by lia.
  rewrite Hq, Hr. reflexivity.
- cbn [String.append String.length]. rewrite Hlen, Hlen'. reflexivity.
Qed.

Lemma formatReserve_injective_witness : 12345678 = 12345000 + 678.
Proof.
apply (formatReserve_injective 12345678 (12345000 + 678));
  [lia | lia | reflexivity].
Defined.

(** ** Error hints *)

Module IncludesFacts.

Lemma prefix_spec (n s : string) :
  String.prefix n s = true <-> exists post, s = (n ++ post)%string.
Proof.
revert s. induction n as [|c n IH]; intros s.
- split; [intros _; exists s; reflexivity | intros _; destruct s; reflexivity].
- destruct s as [|c' s]; simpl.
  + split; [discriminate | intros [post Hpost]; discriminate].
  + destruct (ascii_dec c c') as [-> | Hneq].
    * rewrite IH. split; intros [post Hpost]; exists post; congruence.
    * split; [discriminate | intros [post Hpost]; congruence].
Qed.

Lemma includes_spec (s n : string) :
  includes s n = true <-> occursIn n s.
Proof.
unfold occursIn. induction s as [|c s IH]; cbn [includes].
- rewrite orb_false_r, prefix_spec. split.
  + intros [post Hpost]. exists EmptyString, post. exact Hpost.
  + intros [[|c pre] [post Hpost]]; [|discriminate].
    exists post. exact Hpost.
- rewrite orb_true_iff, prefix_spec, IH. split.
  + intros [[post Hpost] | [pre [post Hpost]]].
    * exists EmptyString, post. exact Hpost.
    * exists (String c pre), post. cbn [String.append]. congruence.
  + intros [[|c' pre] [post Hpost]].
    * left. exists post. exact Hpost.
    * right. cbn [String.append] in Hpost. injection Hpost as _ Hrest.
      exists pre, post. exact Hrest.
Qed.

Lemma includes_false (s n : string) :
  includes s n = false <-> ~ occursIn n s.
Proof.
rewrite <- includes_spec. destruct (includes s n); split; congruence.
Qed.

End IncludesFacts.

(** X13.  Which hint simple-swap prints is decided by what occurs in the
    error message, first match first: the pair hint when PairNotFound occurs
    anywhere in it; else the reserves hint when InsufficientLiquidity
    occurs; else the slippage hint when Slippage occurs; and nothing when
    none of them occurs or the error has no message. *)
Theorem swapErrorHints_by_occurrence :
  forall message : string,
    (occursIn "PairNotFound" message ->
     swapErrorHints (Some message) = pairNotFoundHint)
    /\ (~ occursIn "PairNotFound" message ->
        occursIn "InsufficientLiquidity" message ->
        swapErrorHints (Some message) = insufficientLiquidityHint)
    /\ (~ occursIn "PairNotFound" message ->
        ~ occursIn "InsufficientLiquidity" message ->
        occursIn "Slippage" message ->
        swapErrorHints (Some message) = slippageHint)
    /\ (~ occursIn "PairNotFound" message ->
        ~ occursIn "InsufficientLiquidity" message ->
        ~ occursIn "Slippage" message ->
        swapErrorHints (Some message) = [])
    /\ swapErrorHints None = [].
Proof.
intros message. unfold swapErrorHints, messageIncludes.
repeat split.
- intros H. apply IncludesFacts.includes_spec in H. rewrite H. reflexivity.
- intros H1 H2.
  apply IncludesFacts.includes_false in H1.
  apply IncludesFacts.includes_spec in H2.
  rewrite H1, H2. reflexivity.
- intros H1 H2 H3.
  apply IncludesFacts.includes_false in H1, H2.
  apply IncludesFacts.includes_spec in H3.
  rewrite H1, H2, H3. reflexivity.
- intros H1 H2 H3.
  apply IncludesFacts.includes_false in H1, H2, H3.
  rewrite H1, H2, H3. reflexivity.
Qed.

Lemma swapErrorHints_by_occurrence_witness :
  swapErrorHints (Some "HostError: Error(Contract, #3) PairNotFound"%string)
  = pairNotFoundHint.
Proof.
apply (proj1 (swapErrorHints_by_occurrence
                "HostError: Error(Contract, #3) PairNotFound")).
exists "HostError: Error(Contract, #3) "%string, EmptyString. reflexivity.
Defined.

(** X14.  Which hint provide-liquidity prints: the balance hint when
    [insufficient balance] occurs anywhere in the error message; else the
    deadline hint when [deadline] occurs; and nothing when neither occurs
    or the error has no message.  The comparison is by character, so the
    capitalised DeadlineExceeded does not count as an occurrence. *)
Theorem liquidityErrorHints_by_occurrence :
  forall message : string,
    (occursIn "insufficient balance" message ->
     liquidityErrorHints (Some message) = insufficientBalanceHint)
    /\ (~ occursIn "insufficient balance" message ->
        occursIn "deadline" message ->
        liquidityErrorHints (Some message) = deadlineHint)
    /\ (~ occursIn "insufficient balance" message ->
        ~ occursIn "deadline" message ->
        liquidityErrorHints (Some message) = [])
    /\ liquidityErrorHints None = []
    /\ liquidityErrorHints (Some "DeadlineExceeded"%string) = [].
Proof.
intros message. unfold liquidityErrorHints, messageIncludes.
repeat split.
- intros H. apply IncludesFacts.includes_spec in H. rewrite H. reflexivity.
- intros H1 H2.
  apply IncludesFacts.includes_false in H1.
  apply IncludesFacts.includes_spec in H2.
  rewrite H1, H2. reflexivity.
- intros H1 H2.
  apply IncludesFacts.includes_false in H1, H2.
  rewrite H1, H2. reflexivity.
Qed.

Lemma liquidityErrorHints_by_occurrence_witness :
  liquidityErrorHints (Some "tx failed: deadline passed"%string)
  = deadlineHint.
Proof.
pose proof (liquidityErrorHints_by_occurrence "tx failed: deadline passed")
  as [_ [Hdeadline _]].
apply Hdeadline.
- apply IncludesFacts.includes_false. reflexivity.
- exists "tx failed: "%string, " passed"%string. reflexivity.
Defined.
